(** * The stock pipeline: fetch, parse, upsert

    A shallow embedding of [scripts/fetch_and_store.py] and the properties
    its specification states about it.

    The script is effectful Python: it reads the process environment, calls
    a remote HTTP API, talks to a Postgres server through a psycopg2
    connection, writes log records and raises exceptions.  The embedding
    makes all of that explicit:

    - Python values that come out of [resp.json()] are values of [json];
    - [float(...)], [int(...)] and [datetime.strptime(..., "%Y-%m-%d")] are
      executable functions ([PyFloat.float_of_string], [PyFloat.int_of_float],
      [PyDate.strptime_Ymd]) over binary64 numbers and calendar dates;
    - the environment, the remote API, the database server, the connection
      objects and the sequence of observable effects form a [world], and
      every function of the script is a computation in the monad [M] that
      threads the world and either returns a value or raises an [exn].

    Strings are sequences of 8-bit characters; the embedding covers ASCII
    text (the digits and white space Python recognises outside ASCII are
    not modelled). *)

From Stdlib Require Import ZArith List String Ascii Bool Lia QArith.
From Stdlib Require Import Floats.SpecFloat.
From stdpp Require Import gmap strings list fin_maps.

Local Open Scope Z_scope.

(** ** Python values decoded from JSON

    [json.loads] gives [None], [bool], [int], [float], [str], [list] and
    [dict].  A [dict] is represented by its items in iteration (insertion)
    order; the keys of a dict are pairwise distinct. *)

#[warnings="-register-all"]
Inductive json :=
| JNull
| JBool (b : bool)
| JInt (n : Z)
| JFloat (f : spec_float)
| JStr (s : string)
| JArr (elems : list json)
| JObj (items : list (string * json)).

(** [d.get(k)] on the items of a dict. *)
Fixpoint assoc {A} (k : string) (items : list (string * A)) : option A :=
  match items with
  | [] => None
  | (k', v) :: rest => if String.eqb k k' then Some v else assoc k rest
  end.

(** ** Exceptions *)

(** What a [RuntimeError] of the script says. *)
Inductive message :=
| MissingEnvVar (name : string)
    (* f"Required environment variable '{name}' is not set" *)
| ApiError (provider_message : json)
    (* f"API error: {data['Error Message']}" *)
| UnexpectedResponse.
    (* "Unexpected API response: 'Time Series (Daily)' not found" *)

(** Errors of [psycopg2] (all subclasses of [psycopg2.Error]). *)
Inductive db_error :=
| OperationalError      (* connection refused or lost *)
| InterfaceError        (* connection already closed *)
| UndefinedTable        (* relation does not exist *)
| CardinalityViolation  (* ON CONFLICT DO UPDATE cannot affect row a second time *)
| NumericValueOutOfRange
| InFailedSqlTransaction
| DatabaseError.        (* any other error the server reports *)

Inductive exn :=
| KeyError (key : string)
| ValueError
| TypeError
| AttributeError
| OverflowError
| RuntimeError (msg : message)
| RequestsTimeout          (* requests.exceptions.Timeout *)
| RequestsConnectionError  (* requests.exceptions.ConnectionError and the like *)
| RequestsHTTPError (status : Z)
| RequestsJSONDecodeError
| Psycopg2Error (e : db_error) (context : option db_error).

(** The [except] clauses of the script test these classes. *)
Definition is_Timeout (e : exn) : bool :=
  match e with RequestsTimeout => true | _ => false end.

Definition is_RequestException (e : exn) : bool :=
  match e with
  | RequestsTimeout | RequestsConnectionError | RequestsHTTPError _
  | RequestsJSONDecodeError => true
  | _ => false
  end.

(** [requests.exceptions.JSONDecodeError] derives from [ValueError] too. *)
Definition is_ValueError (e : exn) : bool :=
  match e with ValueError | RequestsJSONDecodeError => true | _ => false end.

Definition is_KeyError (e : exn) : bool :=
  match e with KeyError _ => true | _ => false end.

Definition is_psycopg2_Error (e : exn) : bool :=
  match e with Psycopg2Error _ _ => true | _ => false end.

(** A value or a raised exception. *)
Inductive result (A : Type) :=
| Ok (a : A)
| Raise (e : exn).
Arguments Ok {A} a.
Arguments Raise {A} e.

#[global] Instance result_ret : MRet result := fun A a => Ok a.

#[global] Instance result_bind : MBind result := fun A B f r =>
  match r with
  | Ok a => f a
  | Raise e => Raise e
  end.

(** ** [float(s)] and [int(x)] *)

Module PyFloat.

(** Python floats are IEEE 754 binary64. *)
Definition prec : Z := 53.
Definition emax : Z := 1024.

Definition code (c : ascii) : Z := Z.of_nat (nat_of_ascii c).

(** The white space [float] strips: space, and tab to carriage return. *)
Definition is_space (c : ascii) : bool :=
  (code c =? 32) || ((9 <=? code c) && (code c <=? 13)).

Definition digit_of (c : ascii) : option Z :=
  if (48 <=? code c) && (code c <=? 57) then Some (code c - 48) else None.

Definition lower (c : ascii) : ascii :=
  if (65 <=? code c) && (code c <=? 90)
  then ascii_of_nat (Z.to_nat (code c + 32)) else c.

Fixpoint lstrip (l : list ascii) : list ascii :=
  match l with
  | c :: l' => if is_space c then lstrip l' else l
  | [] => []
  end.

Definition strip (l : list ascii) : list ascii :=
  rev (lstrip (rev (lstrip l))).

(** The decimal digits read so far: their value and how many there are. *)
Definition digits : Type := Z * Z.

Definition push (acc : digits) (d : Z) : digits :=
  (10 * fst acc + d, snd acc + 1).

(** The rest of a [digitpart] after its first digit:
    [(["_"] digit)*]. *)
Fixpoint digitpart_rest (acc : digits) (l : list ascii) : digits * list ascii :=
  match l with
  | c :: l' =>
      match digit_of c with
      | Some d => digitpart_rest (push acc d) l'
      | None =>
          if Ascii.eqb c "_" then
            match l' with
            | c2 :: l'' =>
                match digit_of c2 with
                | Some d => digitpart_rest (push acc d) l''
                | None => (acc, l)
                end
            | [] => (acc, l)
            end
          else (acc, l)
      end
  | [] => (acc, l)
  end.

(** [digitpart ::= digit (["_"] digit)*]; [None] when [l] does not start
    with a digit. *)
Definition digitpart (acc : digits) (l : list ascii) : option (digits * list ascii) :=
  match l with
  | c :: l' =>
      match digit_of c with
      | Some d => Some (digitpart_rest (push acc d) l')
      | None => None
      end
  | [] => None
  end.

(** [sign ::= "+" | "-"], optional; [true] is minus. *)
Definition sign (l : list ascii) : bool * list ascii :=
  match l with
  | c :: l' =>
      if Ascii.eqb c "-" then (true, l')
      else if Ascii.eqb c "+" then (false, l')
      else (false, l)
  | [] => (false, l)
  end.

(** [number ::= [digitpart] "." digitpart | digitpart ["."]]: the digits of
    the integer and fraction parts together, and the number of fraction
    digits. *)
Definition number (l : list ascii) : option (Z * Z * list ascii) :=
  match digitpart (0, 0) l with
  | Some (ip, l1) =>
      match l1 with
      | c :: l2 =>
          if Ascii.eqb c "." then
            match digitpart (fst ip, 0) l2 with
            | Some (fp, l3) => Some (fst fp, snd fp, l3)
            | None => Some (fst ip, 0, l2)
            end
          else Some (fst ip, 0, l1)
      | [] => Some (fst ip, 0, l1)
      end
  | None =>
      match l with
      | c :: l2 =>
          if Ascii.eqb c "." then
            match digitpart (0, 0) l2 with
            | Some (fp, l3) => Some (fst fp, snd fp, l3)
            | None => None
            end
          else None
      | [] => None
      end
  end.

(** [exponent ::= ("e" | "E") [sign] digitpart], optional; a string that
    has the letter and no exponent after it is not a number. *)
Definition exponent (l : list ascii) : option (Z * list ascii) :=
  match l with
  | c :: l1 =>
      if Ascii.eqb (lower c) "e" then
        let '(s, l2) := sign l1 in
        match digitpart (0, 0) l2 with
        | Some (ds, l3) => Some (if s then - fst ds else fst ds, l3)
        | None => None
        end
      else Some (0, l)
  | [] => Some (0, l)
  end.

(** The binary64 number nearest to [p / q], ties to even. *)
Definition round_ratio (s : bool) (p q : positive) : spec_float :=
  let '(mz, ez, lz) := SFdiv_core_binary prec emax (Zpos p) 0 (Zpos q) 0 in
  binary_round_aux prec emax s mz ez lz.

(** The binary64 number nearest to [(-1)^s * m * 10^e]. *)
Definition of_decimal (s : bool) (m e : Z) : spec_float :=
  match m with
  | Zpos p =>
      if 0 <=? e then round_ratio s (Z.to_pos (Zpos p * 10 ^ e)) 1
      else round_ratio s p (Z.to_pos (10 ^ (- e)))
  | _ => S754_zero s
  end.

Definition keyword (l : list ascii) : string :=
  string_of_list_ascii (map lower l).

(** [float(s)] for a [str]: [None] stands for [ValueError]. *)
Definition float_of_string (s : string) : option spec_float :=
  let '(neg, body) := sign (strip (list_ascii_of_string s)) in
  if String.eqb (keyword body) "inf" || String.eqb (keyword body) "infinity"
  then Some (S754_infinity neg)
  else if String.eqb (keyword body) "nan" then Some S754_nan
  else
    match number body with
    | Some (m, nfrac, l1) =>
        match exponent l1 with
        | Some (e, []) => Some (of_decimal neg m (e - nfrac))
        | _ => None
        end
    | None => None
    end.

(** [float(n)] for an [int]: the nearest binary64 number, and
    [OverflowError] when it is out of range. *)
Definition float_of_int (n : Z) : result spec_float :=
  match binary_normalize prec emax n 0 false with
  | S754_infinity _ => Raise OverflowError
  | f => Ok f
  end.

(** [int(x)] for a [float]: truncation toward zero; [ValueError] for NaN,
    [OverflowError] for an infinity. *)
Definition int_of_float (f : spec_float) : result Z :=
  match f with
  | S754_zero _ => Ok 0
  | S754_nan => Raise ValueError
  | S754_infinity _ => Raise OverflowError
  | S754_finite s m e =>
      let a := if 0 <=? e then Zpos m * 2 ^ e else Zpos m / 2 ^ (- e) in
      Ok (if s then - a else a)
  end.

(** The exact value of a finite float. *)
Definition to_Q (f : spec_float) : option Q :=
  match f with
  | S754_zero _ => Some 0%Q
  | S754_finite s m e =>
      let a := if 0 <=? e then inject_Z (Zpos m * 2 ^ e)
               else Qmake (Zpos m) (Z.to_pos (2 ^ (- e))) in
      Some (if s then Qopp a else a)
  | _ => None
  end.

End PyFloat.

(** ** [datetime.strptime(s, "%Y-%m-%d").date()] *)

Module PyDate.

Record date := mk_date { year : Z; month : Z; day : Z }.

#[global] Instance date_eq_dec : EqDecision date.
Proof. solve_decision. Defined.

Definition digit_in (lo hi : Z) (c : ascii) : option Z :=
  match PyFloat.digit_of c with
  | Some d => if (lo <=? d) && (d <=? hi) then Some d else None
  | None => None
  end.

(** [%Y] is the pattern [\d\d\d\d]. *)
Definition year_pat (l : list ascii) : option (Z * list ascii) :=
  match l with
  | a :: b :: c :: d :: rest =>
      match digit_in 0 9 a, digit_in 0 9 b, digit_in 0 9 c, digit_in 0 9 d with
      | Some a, Some b, Some c, Some d => Some (1000 * a + 100 * b + 10 * c + d, rest)
      | _, _, _, _ => None
      end
  | _ => None
  end.

(** One alternative of a pattern made of two characters. *)
Definition two (f : ascii -> option Z) (g : ascii -> option Z) (l : list ascii)
  : list (Z * list ascii) :=
  match l with
  | a :: b :: rest =>
      match f a, g b with
      | Some x, Some y => [(10 * x + y, rest)]
      | _, _ => []
      end
  | _ => []
  end.

Definition one (f : ascii -> option Z) (l : list ascii) : list (Z * list ascii) :=
  match l with
  | a :: rest => match f a with Some x => [(x, rest)] | None => [] end
  | [] => []
  end.

Definition blank (c : ascii) : option Z :=
  if Ascii.eqb c " " then Some 0 else None.

(** [%m] is [1[0-2]|0[1-9]|[1-9]]: the matches, in the order the regular
    expression engine tries them. *)
Definition month_pat (l : list ascii) : list (Z * list ascii) :=
  two (digit_in 1 1) (digit_in 0 2) l ++ two (digit_in 0 0) (digit_in 1 9) l
  ++ one (digit_in 1 9) l.

(** [%d] is [3[0-1]|[1-2]\d|0[1-9]|[1-9]| [1-9]]. *)
Definition day_pat (l : list ascii) : list (Z * list ascii) :=
  two (digit_in 3 3) (digit_in 0 1) l ++ two (digit_in 1 2) (digit_in 0 9) l
  ++ two (digit_in 0 0) (digit_in 1 9) l ++ one (digit_in 1 9) l
  ++ two blank (digit_in 1 9) l.

Definition dash (l : list ascii) : option (list ascii) :=
  match l with
  | c :: rest => if Ascii.eqb c "-" then Some rest else None
  | [] => None
  end.

(** The first way to match the whole pattern [%Y-%m-%d] at the start of
    the string: the fields and what is left of the string. *)
Fixpoint first_match (y : Z) (months : list (Z * list ascii))
  : option (Z * Z * Z * list ascii) :=
  match months with
  | [] => None
  | (m, l) :: others =>
      match dash l with
      | Some l' =>
          match day_pat l' with
          | (d, rest) :: _ => Some (y, m, d, rest)
          | [] => first_match y others
          end
      | None => first_match y others
      end
  end.

Definition is_leap (y : Z) : bool :=
  (y mod 4 =? 0) && (negb (y mod 100 =? 0) || (y mod 400 =? 0)).

Definition days_in_month (y m : Z) : Z :=
  if m =? 2 then (if is_leap y then 29 else 28)
  else if (m =? 4) || (m =? 6) || (m =? 9) || (m =? 11) then 30
  else 31.

(** [datetime.date(y, m, d)]: [None] stands for [ValueError]. *)
Definition make_date (y m d : Z) : option date :=
  if (1 <=? y) && (y <=? 9999) && (1 <=? m) && (m <=? 12)
     && (1 <=? d) && (d <=? days_in_month y m)
  then Some (mk_date y m d) else None.

(** [datetime.strptime(s, "%Y-%m-%d").date()]: [None] stands for
    [ValueError] (no match, unconverted data remains, or no such day). *)
Definition strptime_Ymd (s : string) : option date :=
  match year_pat (list_ascii_of_string s) with
  | Some (y, l1) =>
      match dash l1 with
      | Some l2 =>
          match first_match y (month_pat l2) with
          | Some (y, m, d, []) => make_date y m d
          | _ => None
          end
      | None => None
      end
  | None => None
  end.

End PyDate.

(** ** The world the script runs in *)

(** A row as [parse_time_series] builds it:
    [(symbol, trade_date, open, high, low, close, volume)]. *)
Record row := mk_row {
  symbol : string;
  trade_date : PyDate.date;
  open_price : spec_float;
  high_price : spec_float;
  low_price : spec_float;
  close_price : spec_float;
  volume : Z
}.

(** *** The remote API *)

Record http_request := mk_request {
  url : string;
  params : list (string * option string);
  timeout : Z
}.

(** What [requests.get] meets: no answer in time, no connection, or a
    response with a status code and a body ([None]: the body is not JSON). *)
Inductive http_outcome :=
| HttpTimeout
| HttpUnreachable
| HttpResponse (status : Z) (body : option json).

(** *** The database

    The relation [daily_stock_prices], keyed by its primary key
    [(symbol, trade_date)].  A record keeps the values the statement sent
    for the value columns (the server stores their coercion to the column
    type, a function of the value sent) and [last_updated]. *)

Record price_record := mk_record {
  rec_open : spec_float;
  rec_high : spec_float;
  rec_low : spec_float;
  rec_close : spec_float;
  rec_volume : Z;
  last_updated : Z
}.

#[global] Instance date_countable : Countable PyDate.date.
Proof.
  refine (inj_countable'
            (fun d => (PyDate.year d, PyDate.month d, PyDate.day d))
            (fun t => PyDate.mk_date t.1.1 t.1.2 t.2) _).
  by intros [].
Defined.

Abbreviation key := (string * PyDate.date)%type.
Abbreviation table := (gmap (string * PyDate.date) price_record).

(** What can go wrong at a round trip to the server, whatever the
    statement: the server reports an error, or the connection is lost. *)
Inductive fault := NoFault | ServerError | ConnectionLost.

(** The server: the committed relation ([None]: it does not exist), a
    clock that gives every transaction a later start time than the one
    before, and what will go wrong at the coming round trips. *)
Record database := mk_database {
  relation : option table;
  clock : Z;
  faults : list fault
}.

(** A psycopg2 connection (autocommit off): open, closed or broken, and
    its transaction, which works on a private copy of the relation and has
    a start time, the value of [NOW()]. *)
Inductive conn_status := Open | Closed | Broken.

Inductive txn :=
| Idle
| Active (work : option table) (start : Z)
| Failed.

Record connection := mk_connection {
  status : conn_status;
  transaction : txn
}.

Inductive statement :=
| CreateTableIfNotExists
| InsertOnConflictUpdate (values : list row).

(** *** Observable effects *)

Inductive level := INFO | WARNING | ERROR.

Inductive log_arg :=
| ArgStr (s : string)
| ArgInt (n : Z)
| ArgExn (e : exn).

Inductive event :=
| Log (lvl : level) (template : string) (args : list log_arg)
| HttpGet (req : http_request)
| DbConnect (handle : nat)
| DbExecute (handle : nat) (stmt : statement)
| DbCommit (handle : nat)
| DbRollback (handle : nat)
| DbClose (handle : nat).

Record world := mk_world {
  environ : gmap string string;          (* os.environ *)
  remote : http_request -> http_outcome; (* the market-data API *)
  server : database;
  connections : list connection;         (* the connection objects, by handle *)
  trace : list event                     (* effects so far, oldest first *)
}.

Definition set_server (db : database) (w : world) : world :=
  mk_world (environ w) (remote w) db (connections w) (trace w).

Definition set_connections (cs : list connection) (w : world) : world :=
  mk_world (environ w) (remote w) (server w) cs (trace w).

Definition emit (e : event) (w : world) : world :=
  mk_world (environ w) (remote w) (server w) (connections w) (trace w ++ [e]).

(** ** Computations *)

Definition M (A : Type) : Type := world -> result A * world.

#[global] Instance M_ret : MRet M := fun A a w => (Ok a, w).

#[global] Instance M_bind : MBind M := fun A B f m w =>
  match m w with
  | (Ok a, w') => f a w'
  | (Raise e, w') => (Raise e, w')
  end.

Definition raise {A} (e : exn) : M A := fun w => (Raise e, w).

(** [try: m  except ... as e: h e]; a handler whose clauses do not match
    [e] raises it again. *)
Definition try_except {A} (m : M A) (h : exn -> M A) : M A := fun w =>
  match m w with
  | (Ok a, w') => (Ok a, w')
  | (Raise e, w') => h e w'
  end.

(** [try: m  finally: fin]. *)
Definition try_finally {A} (m : M A) (fin : M unit) : M A := fun w =>
  let '(r, w1) := m w in
  match fin w1 with
  | (Ok _, w2) => (r, w2)
  | (Raise e, w2) => (Raise e, w2)
  end.

Definition lift {A} (r : result A) : M A := fun w => (r, w).

Definition effect (e : event) : M unit := fun w => (Ok tt, emit e w).

Definition logging (lvl : level) (template : string) (args : list log_arg) : M unit :=
  effect (Log lvl template args).

(** [for x in xs: acc = body acc x]. *)
Fixpoint for_each {A B} (body : B -> A -> M B) (xs : list A) (acc : B) : M B :=
  match xs with
  | [] => mret acc
  | x :: xs' => acc' ← body acc x; for_each body xs' acc'
  end.

(** ** Python operations on decoded JSON *)

(** [needle in s] for two strings. *)
Fixpoint is_prefix (p s : list ascii) : bool :=
  match p, s with
  | [], _ => true
  | a :: p', b :: s' => Ascii.eqb a b && is_prefix p' s'
  | _ :: _, [] => false
  end.

Fixpoint is_substring (p s : list ascii) : bool :=
  is_prefix p s || match s with [] => false | _ :: s' => is_substring p s' end.

Definition is_str (k : string) (v : json) : bool :=
  match v with JStr s => String.eqb k s | _ => false end.

(** [k in data] for a string [k]: a key of a dict, an element of a list,
    a substring of a string; other values are not containers. *)
Definition py_in (k : string) (data : json) : result bool :=
  match data with
  | JObj items => Ok (bool_decide (is_Some (assoc k items)))
  | JArr elems => Ok (existsb (is_str k) elems)
  | JStr s => Ok (is_substring (list_ascii_of_string k) (list_ascii_of_string s))
  | _ => Raise TypeError
  end.

(** [data[k]] for a string [k]. *)
Definition subscript (data : json) (k : string) : result json :=
  match data with
  | JObj items =>
      match assoc k items with
      | Some v => Ok v
      | None => Raise (KeyError k)
      end
  | _ => Raise TypeError
  end.

(** [data.items()]. *)
Definition dict_items (data : json) : result (list (string * json)) :=
  match data with
  | JObj items => Ok items
  | _ => Raise AttributeError
  end.

(** [float(v)]. *)
Definition py_float (v : json) : result spec_float :=
  match v with
  | JStr s =>
      match PyFloat.float_of_string s with
      | Some f => Ok f
      | None => Raise ValueError
      end
  | JFloat f => Ok f
  | JInt n => PyFloat.float_of_int n
  | JBool b => PyFloat.float_of_int (if b then 1 else 0)
  | _ => Raise TypeError
  end.

Definition strptime (s : string) : result PyDate.date :=
  match PyDate.strptime_Ymd s with
  | Some d => Ok d
  | None => Raise ValueError
  end.

(** [not value] for the value of [os.getenv]. *)
Definition falsy (value : option string) : bool :=
  match value with
  | None => true
  | Some s => String.eqb s EmptyString
  end.

(** ** The libraries' effects *)

(** [os.getenv(name, default)]. *)
Definition os_getenv (name : string) (default : option string) : M (option string) :=
  fun w =>
    (Ok (match environ w !! name with Some v => Some v | None => default end), w).

(** [requests.get(url, params=params, timeout=timeout)]. *)
Definition requests_get (u : string) (ps : list (string * option string)) (t : Z)
  : M (Z * option json) := fun w =>
  let req := mk_request u ps t in
  let w' := emit (HttpGet req) w in
  match remote w req with
  | HttpTimeout => (Raise RequestsTimeout, w')
  | HttpUnreachable => (Raise RequestsConnectionError, w')
  | HttpResponse st body => (Ok (st, body), w')
  end.

(** [resp.raise_for_status()]. *)
Definition raise_for_status (resp : Z * option json) : M unit :=
  if (400 <=? fst resp) && (fst resp <? 600)
  then raise (RequestsHTTPError (fst resp)) else mret tt.

(** [resp.json()]. *)
Definition resp_json (resp : Z * option json) : M json :=
  match snd resp with
  | Some data => mret data
  | None => raise RequestsJSONDecodeError
  end.

(** ** The database server and psycopg2 *)

Definition row_key (r : row) : key := (symbol r, trade_date r).

Definition record_of (now : Z) (r : row) : price_record :=
  mk_record (open_price r) (high_price r) (low_price r) (close_price r)
            (volume r) now.

(** One proposed row of [INSERT ... ON CONFLICT (symbol, trade_date) DO
    UPDATE SET ... last_updated = NOW()]: a new key is inserted (its
    [last_updated] takes the column default, [NOW()]); for a key that is
    there, the value columns and [last_updated] are overwritten. *)
Definition upsert_row (now : Z) (t : table) (r : row) : table :=
  <[row_key r := record_of now r]> t.

(** [NUMERIC(18, 6)] holds NaN and the numbers below [10^12] in absolute
    value. *)
Definition fits_numeric (f : spec_float) : bool :=
  match f with
  | S754_zero _ | S754_nan => true
  | S754_infinity _ => false
  | S754_finite _ m e =>
      if 0 <=? e then Zpos m * 2 ^ e <? 10 ^ 12
      else Zpos m <? 10 ^ 12 * 2 ^ (- e)
  end.

Definition fits_bigint (n : Z) : bool := (- 2 ^ 63 <=? n) && (n <? 2 ^ 63).

Definition storable (r : row) : bool :=
  fits_numeric (open_price r) && fits_numeric (high_price r)
  && fits_numeric (low_price r) && fits_numeric (close_price r)
  && fits_bigint (volume r).

(** What a statement does to the relation a transaction works on. *)
Definition run_statement (stmt : statement) (work : option table) (now : Z)
  : db_error + option table :=
  match stmt with
  | CreateTableIfNotExists =>
      inr (Some (match work with Some t => t | None => ∅ end))
  | InsertOnConflictUpdate rows =>
      match work with
      | None => inl UndefinedTable
      | Some t =>
          if negb (bool_decide (NoDup (row_key <$> rows)))
          then inl CardinalityViolation
          else if negb (forallb storable rows) then inl NumericValueOutOfRange
          else inr (Some (foldl (upsert_row now) t rows))
      end
  end.

Definition pop_fault (db : database) : fault * database :=
  match faults db with
  | [] => (NoFault, db)
  | f :: fs => (f, mk_database (relation db) (clock db) fs)
  end.

(** A transaction starts at the first statement after the last commit or
    rollback. *)
Definition begin (db : database) (t : txn) : option table * Z * database :=
  match t with
  | Active work start => (work, start, db)
  | _ => (relation db, clock db,
          mk_database (relation db) (clock db + 1) (faults db))
  end.

Definition server_execute (stmt : statement) (db : database) (c : connection)
  : option db_error * database * connection :=
  match status c with
  | Open =>
      let '(f, db1) := pop_fault db in
      match f, transaction c with
      | ConnectionLost, _ => (Some OperationalError, db1, mk_connection Broken Idle)
      | _, Failed => (Some InFailedSqlTransaction, db1, c)
      | ServerError, t =>
          let '(_, _, db2) := begin db1 t in
          (Some DatabaseError, db2, mk_connection Open Failed)
      | NoFault, t =>
          let '(work, start, db2) := begin db1 t in
          match run_statement stmt work start with
          | inl err => (Some err, db2, mk_connection Open Failed)
          | inr work' => (None, db2, mk_connection Open (Active work' start))
          end
      end
  | _ => (Some InterfaceError, db, c)
  end.

Definition server_commit (db : database) (c : connection)
  : option db_error * database * connection :=
  match status c, transaction c with
  | Open, Idle => (None, db, c)
  | Open, t =>
      let '(f, db1) := pop_fault db in
      match f, t with
      | ConnectionLost, _ => (Some OperationalError, db1, mk_connection Broken Idle)
      | ServerError, _ => (Some DatabaseError, db1, mk_connection Open Idle)
      | NoFault, Active work _ =>
          (None, mk_database work (clock db1) (faults db1), mk_connection Open Idle)
      | NoFault, _ => (None, db1, mk_connection Open Idle)
      end
  | _, _ => (Some InterfaceError, db, c)
  end.

Definition server_rollback (db : database) (c : connection)
  : option db_error * database * connection :=
  match status c, transaction c with
  | Open, Idle => (None, db, c)
  | Open, _ =>
      let '(f, db1) := pop_fault db in
      match f with
      | ConnectionLost => (Some OperationalError, db1, mk_connection Broken Idle)
      | ServerError => (Some DatabaseError, db1, mk_connection Open Idle)
      | NoFault => (None, db1, mk_connection Open Idle)
      end
  | _, _ => (Some InterfaceError, db, c)
  end.

(** A method of the connection [conn]: an event, and a step of the server
    and of the connection object. *)
Definition conn_call (conn : nat) (ev : event)
  (step : database -> connection -> option db_error * database * connection)
  : M unit := fun w =>
  match connections w !! conn with
  | Some c =>
      let '(err, db, c') := step (server w) c in
      let w' := emit ev (set_connections (<[conn := c']> (connections w))
                                          (set_server db w)) in
      match err with
      | Some e => (Raise (Psycopg2Error e None), w')
      | None => (Ok tt, w')
      end
  | None => (Raise (Psycopg2Error InterfaceError None), w)
  end.

(** [psycopg2.connect(...)]: a new connection object, or
    [OperationalError] when the server cannot be reached or refuses. *)
Definition psycopg2_connect
  (dbname user password host port : option string) : M nat := fun w =>
  let '(f, db) := pop_fault (server w) in
  match f with
  | NoFault =>
      let conn := length (connections w) in
      (Ok conn,
       emit (DbConnect conn)
            (set_connections (connections w ++ [mk_connection Open Idle])
                             (set_server db w)))
  | _ => (Raise (Psycopg2Error OperationalError None), set_server db w)
  end.

(** [conn.cursor()]. *)
Definition conn_cursor (conn : nat) : M unit := fun w =>
  match connections w !! conn with
  | Some (mk_connection Open _) => (Ok tt, w)
  | _ => (Raise (Psycopg2Error InterfaceError None), w)
  end.

(** [cur.execute(stmt)]. *)
Definition cur_execute (conn : nat) (stmt : statement) : M unit :=
  conn_call conn (DbExecute conn stmt) (server_execute stmt).

(** [conn.commit()], [conn.rollback()]. *)
Definition conn_commit (conn : nat) : M unit :=
  conn_call conn (DbCommit conn) server_commit.

Definition conn_rollback (conn : nat) : M unit :=
  conn_call conn (DbRollback conn) server_rollback.

(** [conn.close()]: an open transaction is discarded. *)
Definition conn_close (conn : nat) : M unit :=
  conn_call conn (DbClose conn)
            (fun db _ => (None, db, mk_connection Closed Idle)).

(** The pages of [psycopg2.extras.execute_values]: [page_size] is 100. *)
Definition page_size : nat := 100.

Fixpoint paginate_upto {A} (fuel : nat) (n : nat) (l : list A) : list (list A) :=
  match fuel, l with
  | S fuel', _ :: _ => take n l :: paginate_upto fuel' n (drop n l)
  | _, _ => []
  end.

Definition paginate {A} (n : nat) (l : list A) : list (list A) :=
  paginate_upto (length l) n l.

(** [execute_values(cur, insert_sql, rows)]: one statement per page. *)
Definition execute_values (conn : nat) (rows : list row) : M unit :=
  for_each (fun _ page => cur_execute conn (InsertOnConflictUpdate page))
           (paginate page_size rows) tt.

(** An exception raised while [cause] is being handled has it as its
    context. *)
Definition handling {A} (cause : exn) (m : M A) : M A := fun w =>
  match m w, cause with
  | (Raise (Psycopg2Error e None), w'), Psycopg2Error c _ =>
      (Raise (Psycopg2Error e (Some c)), w')
  | r, _ => r
  end.

(** ** The script *)

Definition API_URL : string := "https://www.alphavantage.co/query".

Definition get_env_var (name : string) (default : option string) (required : bool)
  : M (option string) :=
  value ← os_getenv name default;
  if required && falsy value
  then raise (RuntimeError (MissingEnvVar name))
  else mret value.

Definition fetch_stock_data (symbol : string) : M json :=
  api_key ← get_env_var "ALPHAVANTAGE_API_KEY" None true;
  let params := [("function", Some "TIME_SERIES_DAILY");
                 ("symbol", Some symbol);
                 ("apikey", api_key)] in
  try_except
    (logging INFO "Requesting data from Alpha Vantage for symbol=%s" [ArgStr symbol];;
     resp ← requests_get API_URL params 15;
     raise_for_status resp;;
     data ← resp_json resp;
     has_error ← lift (py_in "Error Message" data);
     if has_error : bool then
       provider_message ← lift (subscript data "Error Message");
       raise (RuntimeError (ApiError provider_message))
     else
       has_series ← lift (py_in "Time Series (Daily)" data);
       if negb has_series then raise (RuntimeError UnexpectedResponse)
       else lift (subscript data "Time Series (Daily)"))
    (fun e =>
       if is_Timeout e then
         logging ERROR "Timeout while fetching data: %s" [ArgExn e];; raise e
       else if is_RequestException e then
         logging ERROR "Request error while fetching data: %s" [ArgExn e];; raise e
       else if is_ValueError e then
         logging ERROR "Failed to parse JSON: %s" [ArgExn e];; raise e
       else raise e).

(** The body of the [try] in the loop of [parse_time_series]: the row of
    one entry. *)
Definition parse_entry (symbol date_str : string) (daily_data : json) : result row :=
  trade_date ← strptime date_str;
  open_price ← subscript daily_data "1. open" ≫= py_float;
  high_price ← subscript daily_data "2. high" ≫= py_float;
  low_price ← subscript daily_data "3. low" ≫= py_float;
  close_price ← subscript daily_data "4. close" ≫= py_float;
  volume ← (subscript daily_data "5. volume" ≫= py_float) ≫= PyFloat.int_of_float;
  mret (mk_row symbol trade_date open_price high_price low_price close_price volume).

(** One turn of the loop of [parse_time_series]. *)
Definition parse_step (symbol : string) (rows : list row) (item : string * json)
  : M (list row) :=
  try_except
    (r ← lift (parse_entry symbol item.1 item.2);
     mret (rows ++ [r]))
    (fun e =>
       if is_KeyError e || is_ValueError e then
         logging WARNING "Skipping date %s due to parsing error: %s"
                 [ArgStr item.1; ArgExn e];;
         mret rows
       else raise e).

Definition parse_time_series (symbol : string) (time_series : json) : M (list row) :=
  items ← lift (dict_items time_series);
  for_each (parse_step symbol) items [].

Definition get_db_connection : M nat :=
  user ← get_env_var "POSTGRES_USER" None true;
  password ← get_env_var "POSTGRES_PASSWORD" None true;
  db ← get_env_var "POSTGRES_DB" None true;
  host ← get_env_var "POSTGRES_HOST" (Some "postgres") false;
  port ← get_env_var "POSTGRES_PORT" (Some "5432") false;
  try_except
    (psycopg2_connect db user password host port)
    (fun e =>
       if is_psycopg2_Error e then
         logging ERROR "Failed to connect to Postgres: %s" [ArgExn e];; raise e
       else raise e).

Definition ensure_table_exists (conn : nat) : M unit :=
  conn_cursor conn;;
  cur_execute conn CreateTableIfNotExists.

(** The [try] block of [upsert_stock_data] and its [except psycopg2.Error]
    clause. *)
Definition upsert_try (conn : nat) (rows : list row) : M unit :=
  conn_cursor conn;;
  execute_values conn rows;;
  conn_commit conn;;
  logging INFO "Inserted/updated %d rows successfully."
          [ArgInt (Z.of_nat (length rows))].

Definition upsert_except (conn : nat) (e : exn) : M unit :=
  if is_psycopg2_Error e then
    handling e (conn_rollback conn);;
    logging ERROR "Failed to upsert data: %s" [ArgExn e];;
    raise e
  else raise e.

Definition upsert_stock_data (conn : nat) (rows : list row) : M unit :=
  match rows with
  | [] => logging WARNING "No rows to insert." []
  | _ :: _ => try_except (upsert_try conn rows) (upsert_except conn)
  end.

(** The [try] block of [main]. *)
Definition main_try (symbol : string) : M unit :=
  time_series ← fetch_stock_data symbol;
  rows ← parse_time_series symbol time_series;
  conn ← get_db_connection;
  try_finally
    (ensure_table_exists conn;;
     upsert_stock_data conn rows)
    (conn_close conn);;
  logging INFO "Pipeline completed successfully for symbol=%s" [ArgStr symbol].

Definition main : M unit :=
  value ← get_env_var "STOCK_SYMBOL" (Some "MSFT") false;
  match value with
  | None => raise TypeError (* not reached: the default is a string *)
  | Some symbol =>
      logging INFO "Starting stock pipeline for symbol=%s" [ArgStr symbol];;
      try_except
        (main_try symbol)
        (fun e =>
           logging ERROR "Pipeline failed: %s" [ArgExn e];; raise e)
  end.

(** ** The task of the DAG

    [run_stock_pipeline] of [stock_pipeline_dag.py], the callable of the
    task; the record of its logger is a record of the log of the run. *)

Definition run_stock_pipeline : M unit :=
  try_except main
    (fun e =>
       logging ERROR "Stock pipeline failed inside DAG: %s" [ArgExn e];; raise e).

(** ** Vocabulary of the properties *)

(** *** Effects *)

(** The effects of a run: what the trace gained. *)
Definition new_events (w w' : world) : list event :=
  drop (length (trace w)) (trace w').

(** Adding events to the trace. *)
Definition emit_all (evs : list event) (w : world) : world :=
  mk_world (environ w) (remote w) (server w) (connections w) (trace w ++ evs).

(** Kinds of events. *)
Definition is_http_get (e : event) : bool :=
  match e with HttpGet _ => true | _ => false end.

Definition is_log (e : event) : bool :=
  match e with Log _ _ _ => true | _ => false end.

(** A computation that only adds events to the trace: it leaves the
    environment, the server and the connections alone. *)
Definition quiet {A} (m : M A) : Prop :=
  forall w r w', m w = (r, w') -> exists evs, w' = emit_all evs w.

(** *** Configuration and the fetcher *)

(** Replacing the process environment. *)
Definition set_environ (env : gmap string string) (w : world) : world :=
  mk_world env (remote w) (server w) (connections w) (trace w).

(** The request [fetch_stock_data] sends. *)
Definition api_request (symbol : string) (api_key : option string) : http_request :=
  mk_request API_URL
             [("function", Some "TIME_SERIES_DAILY");
              ("symbol", Some symbol);
              ("apikey", api_key)] 15.

(** A status that [raise_for_status] lets through. *)
Definition success_status (st : Z) : Prop := ~ (400 <= st < 600).

(** *** The normalizer *)

(** The five fields [parse_time_series] reads of an entry. *)
Definition required_fields : list string :=
  ["1. open"; "2. high"; "3. low"; "4. close"; "5. volume"]%string.

(** A field mapping of a raw time series: a dict whose values are
    strings. *)
Definition field_mapping (v : json) : Prop :=
  exists fields, v = JObj fields /\ Forall (fun kv => exists s, kv.2 = JStr s) fields.

(** A field that is absent, or a string that [float] does not accept. *)
Definition bad_field (v : json) (k : string) : Prop :=
  subscript v k = Raise (KeyError k)
  \/ exists s, subscript v k = Ok (JStr s) /\ PyFloat.float_of_string s = None.


(** The per-entry policy in the words of the specification: an entry is
    malformed when its date fails strict format parsing, or one of the
    five required fields is absent or not numeric.  A field is taken to be
    numeric when it is there and [float] accepts its value: of the
    readings of the words this one leaves the fewest entries malformed, so
    an entry that is malformed here is malformed in every other. *)
Definition numeric_field (v : json) (k : string) : Prop :=
  exists f, subscript v k ≫= py_float = Ok f.

Definition malformed (item : string * json) : Prop :=
  PyDate.strptime_Ymd item.1 = None
  \/ Exists (fun k => ~ numeric_field item.2 k) required_fields.

(** The row of an entry that the loop keeps. *)
Definition kept_row (symbol : string) (item : string * json) : option row :=
  match parse_entry symbol item.1 item.2 with
  | Ok r => Some r
  | Raise _ => None
  end.

(** The warning for an entry that the loop skips. *)
Definition skip_warning (symbol : string) (item : string * json) : list event :=
  match parse_entry symbol item.1 item.2 with
  | Ok _ => []
  | Raise e => [Log WARNING "Skipping date %s due to parsing error: %s"
                    [ArgStr item.1; ArgExn e]]
  end.

(** Truncation of a rational toward zero. *)
Definition truncate (q : Q) : Z := Z.quot (Qnum q) (Zpos (Qden q)).

(** [f] is the finite float whose exact value is [q]. *)
Definition float_is (f : spec_float) (q : Q) : Prop :=
  match PyFloat.to_Q f with
  | Some x => Qeq x q
  | None => False
  end.

(** *** The store *)

(** A method of a connection changes the server, the connection object
    and the trace, and nothing else. *)
Definition conn_update (conn : nat) (db : database) (c : connection)
  (evs : list event) (w : world) : world :=
  mk_world (environ w) (remote w) db (<[conn := c]> (connections w))
           (trace w ++ evs).

(** What a method of a connection returns or raises. *)
Definition db_result (err : option db_error) : result unit :=
  match err with
  | Some e => Raise (Psycopg2Error e None)
  | None => Ok tt
  end.

(** The relation a statement of the connection sees, and the value of
    [NOW()] for it: those of its open transaction, or else those of the
    transaction the statement starts. *)
Definition visible_relation (db : database) (c : connection) : option table :=
  match transaction c with
  | Active work _ => work
  | _ => relation db
  end.

Definition txn_start (db : database) (c : connection) : Z :=
  match transaction c with
  | Active _ start => start
  | _ => clock db
  end.

(** A transaction that is open started before now. *)
Definition started_before (db : database) (c : connection) : Prop :=
  forall work start, transaction c = Active work start -> start < clock db.

(** The statements of [execute_values], page after page, on the server
    and the connection. *)
Fixpoint run_pages (pages : list (list row)) (db : database) (c : connection)
  : option db_error * database * connection :=
  match pages with
  | [] => (None, db, c)
  | page :: pages' =>
      match server_execute (InsertOnConflictUpdate page) db c with
      | (None, db', c') => run_pages pages' db' c'
      | failed => failed
      end
  end.

(** The [try] block of [upsert_stock_data] on the server and the
    connection. *)
Definition run_try (rows : list row) (db : database) (c : connection)
  : option db_error * database * connection :=
  match status c with
  | Open =>
      match run_pages (paginate page_size rows) db c with
      | (None, db', c') => server_commit db' c'
      | failed => failed
      end
  | _ => (Some InterfaceError, db, c)
  end.

(** [upsert_stock_data] for a batch that is not empty, on the server and
    the connection. *)
Definition run_upsert (rows : list row) (db : database) (c : connection)
  : result unit * database * connection :=
  match run_try rows db c with
  | (None, db', c') => (Ok tt, db', c')
  | (Some e, db', c') =>
      match server_rollback db' c' with
      | (None, db'', c'') => (Raise (Psycopg2Error e None), db'', c'')
      | (Some e', db'', c'') => (Raise (Psycopg2Error e' (Some e)), db'', c'')
      end
  end.

(** The value columns of a record. *)
Definition values_of (p : price_record)
  : spec_float * spec_float * spec_float * spec_float * Z :=
  (rec_open p, rec_high p, rec_low p, rec_close p, rec_volume p).

(** The keys and the value columns of a relation: the relation without
    [last_updated]. *)
Definition value_columns (rel : option table)
  : option (gmap key (spec_float * spec_float * spec_float * spec_float * Z)) :=
  match rel with
  | Some t => Some (values_of <$> t)
  | None => None
  end.

(** The last row of a batch for a key. *)
Definition latest (k : key) (rows : list row) : option row :=
  last (filter (fun r => row_key r = k) rows).

(** The error carries the cause: it is the cause, raised again, or it was
    raised while the cause was handled. *)
Definition carries (e : exn) (cause : db_error) : Prop :=
  e = Psycopg2Error cause None \/ exists e', e = Psycopg2Error e' (Some cause).

(** *** The pipeline *)

(** What [get_db_connection] does: it returns the handle of a new
    connection object, open, behind the connections there were, or it
    raises and adds none. *)
Definition connect_outcome (w : world) (r : result nat) (w' : world) : Prop :=
  (exists db,
      r = Ok (length (connections w))
      /\ w' = mk_world (environ w) (remote w) db
                       (connections w ++ [mk_connection Open Idle])
                       (trace w ++ [DbConnect (length (connections w))]))
  \/ (exists e, r = Raise e /\ connections w' = connections w
                /\ exists evs, trace w' = trace w ++ evs).

(** What a run does to the connections: it adds none, or it adds one,
    which it has opened and then closed, and after the [close] it has only
    written log records. *)
Definition connection_released (w w' : world) : Prop :=
  (connections w' = connections w /\ exists evs, trace w' = trace w ++ evs)
  \/ (connections w' = connections w ++ [mk_connection Closed Idle]
      /\ exists before during after,
          trace w' = trace w ++ before
                       ++ DbConnect (length (connections w)) :: during
                       ++ DbClose (length (connections w)) :: after
          /\ forallb is_log after = true).

(** *** Sample inputs *)

(** Sample worlds: a process environment, a remote API that always gives
    the same answer, and a server with no relation yet, no connection and
    no fault to come. *)
Definition world_of (env : gmap string string) (answer : http_outcome) : world :=
  mk_world env (fun _ => answer) (mk_database None 0 []) [] [].

Definition full_env : gmap string string :=
  {[ "ALPHAVANTAGE_API_KEY" := "demo"; "POSTGRES_USER" := "airflow";
     "POSTGRES_PASSWORD" := "secret"; "POSTGRES_DB" := "stocks" ]}%string.

(** An entry with the prices of the example and a given volume field. *)
Definition entry_with_volume (date_str : string) (v : json) : string * json :=
  (date_str,
   JObj [("1. open", JStr "370.0"); ("2. high", JStr "375.5");
         ("3. low", JStr "369.0"); ("4. close", JStr "374.0");
         ("5. volume", v)]%string).

Definition msft_row : row :=
  mk_row "MSFT" (PyDate.mk_date 2024 1 2)
         (S754_finite false 6509108836433920 (-44))
         (S754_finite false 6605865859678208 (-44))
         (S754_finite false 6491516650389504 (-44))
         (S754_finite false 6579477580611584 (-44))
         21000000.

(** A world with one open connection, handle 0, to a server whose
    relation exists and is empty. *)
Definition connected_world (fs : list fault) : world :=
  mk_world full_env (fun _ => HttpUnreachable) (mk_database (Some ∅) 0 fs)
           [mk_connection Open Idle] [].

(** A world in which the API answers with the example entry and the
    server accepts the connection and the [CREATE TABLE] and then refuses
    the statement of the upsert. *)
Definition failing_store_world : world :=
  mk_world full_env
    (fun _ => HttpResponse 200
                (Some (JObj [("Time Series (Daily)"%string,
                              JObj [entry_with_volume "2024-01-02"
                                                      (JStr "21000000")])])))
    (mk_database None 0 [NoFault; NoFault; ServerError]) [] [].

(** *** Further vocabulary *)

(** The value of a lookup: the variable when it is set, or else the
    default. *)
Definition env_value (w : world) (name : string) (default : option string)
  : option string :=
  match environ w !! name with
  | Some v => Some v
  | None => default
  end.

(** The symbol a run of [main] works on. *)
Definition run_symbol (w : world) : string :=
  match environ w !! "STOCK_SYMBOL" with
  | Some v => v
  | None => "MSFT"
  end.

(** The world in which [fetch_stock_data] has logged and sent its request. *)
Definition requested (symbol : string) (api_key : string) (w : world) : world :=
  emit (HttpGet (api_request symbol (Some api_key)))
       (emit (Log INFO "Requesting data from Alpha Vantage for symbol=%s"
                  [ArgStr symbol]) w).

(** A calendar date. *)
Definition valid_date (d : PyDate.date) : Prop :=
  1 <= PyDate.year d <= 9999
  /\ 1 <= PyDate.month d <= 12
  /\ 1 <= PyDate.day d <= PyDate.days_in_month (PyDate.year d) (PyDate.month d).

(** A page the server accepts: distinct keys, values in the range of
    their columns. *)
Definition page_ok (page : list row) : Prop :=
  NoDup (row_key <$> page) /\ forallb storable page = true.

(** Nothing goes wrong at the next [n] round trips to the server. *)
Definition no_fault_for (n : nat) (db : database) : Prop :=
  Forall (fun f => f = NoFault) (take n (faults db)).

(** The relation when it exists, or else the empty relation. *)
Definition or_empty (rel : option table) : table :=
  match rel with
  | Some t => t
  | None => ∅
  end.

(** A connection on which a statement can run: it is open, its
    transaction has not failed, and the relation exists for it. *)
Definition valid_session (db : database) (c : connection) : Prop :=
  status c = Open /\ transaction c <> Failed
  /\ is_Some (visible_relation db c).

(** *** Configuration and the connection *)

(** The variables [get_db_connection] requires, in the order of its
    lookups, and the first of them that is not configured. *)
Definition db_variables : list string :=
  ["POSTGRES_USER"; "POSTGRES_PASSWORD"; "POSTGRES_DB"]%string.

Definition first_missing (w : world) : option string :=
  List.find (fun name => falsy (environ w !! name)) db_variables.

(** [psycopg2.connect] and the [except] clause around it. *)
Definition connect_result (w : world) : result nat * world :=
  let db := (pop_fault (server w)).2 in
  match (pop_fault (server w)).1 with
  | NoFault =>
      (Ok (length (connections w)),
       emit (DbConnect (length (connections w)))
            (set_connections (connections w ++ [mk_connection Open Idle])
                             (set_server db w)))
  | _ =>
      (Raise (Psycopg2Error OperationalError None),
       emit (Log ERROR "Failed to connect to Postgres: %s"
                 [ArgExn (Psycopg2Error OperationalError None)])
            (set_server db w))
  end.

(** *** The stages of a run *)

(** The [try ... finally] of [main]. *)
Definition store_block (conn : nat) (rows : list row) : M unit :=
  try_finally (ensure_table_exists conn;; upsert_stock_data conn rows)
              (conn_close conn).

(** What [main] does with the time series it has fetched. *)
Definition store_series (sym : string) (series : json) : M unit :=
  rows ← parse_time_series sym series;
  conn ← get_db_connection;
  store_block conn rows;;
  logging INFO "Pipeline completed successfully for symbol=%s" [ArgStr sym].

(** The API answers the request for [sym] with a time series: a success
    status and a JSON object without the error key whose data key holds
    the entries [items]. *)
Definition api_series (w : world) (sym api_key : string)
  (items : list (string * json)) : Prop :=
  exists st body,
    remote w (api_request sym (Some api_key))
    = HttpResponse st (Some (JObj body))
    /\ success_status st
    /\ assoc "Error Message" body = None
    /\ assoc "Time Series (Daily)" body = Some (JObj items).

(** An entry the loop of [parse_time_series] gets past: it converts, or
    its conversion raises [KeyError] or [ValueError]. *)
Definition passable (sym : string) (item : string * json) : Prop :=
  match parse_entry sym item.1 item.2 with
  | Ok _ => True
  | Raise e => is_KeyError e || is_ValueError e = true
  end.

(** The round trips to the server of the [try ... finally] of [main]: one
    for the [CREATE TABLE] and, with rows to store, one for each page and
    one for the commit.  Those of a run: one more, for the connection. *)
Definition store_trips (rows : list row) : nat :=
  match rows with
  | [] => 1
  | _ :: _ => 2 + length (paginate page_size rows)
  end.

Definition round_trips (rows : list row) : nat := S (store_trips rows).

(** The relation after a batch has been stored at time [now]: a batch
    without rows stores nothing, not even the relation. *)
Definition stored (now : Z) (rel : option table) (rows : list row) : option table :=
  match rows with
  | [] => rel
  | _ :: _ => Some (foldl (upsert_row now) (or_empty rel) rows)
  end.

(** *** The effects of a run *)

(** The first and the last log record of a run of [main]. *)
Definition start_record (w : world) : event :=
  Log INFO "Starting stock pipeline for symbol=%s" [ArgStr (run_symbol w)].

Definition final_record (w : world) (r : result unit) : event :=
  match r with
  | Ok _ => Log INFO "Pipeline completed successfully for symbol=%s"
                [ArgStr (run_symbol w)]
  | Raise e => Log ERROR "Pipeline failed: %s" [ArgExn e]
  end.

(** What [fetch_stock_data] does before the API answers: with the
    credential configured it logs and sends its request, and without it
    nothing. *)
Definition request_events (sym : string) (api_key : option string) : list event :=
  if falsy api_key then []
  else [Log INFO "Requesting data from Alpha Vantage for symbol=%s" [ArgStr sym];
        HttpGet (api_request sym api_key)].

(** A computation that sends no request: it only adds events to the
    trace, and none of them is a request. *)
Definition offline {A} (m : M A) : Prop :=
  forall w r w', m w = (r, w') ->
    exists evs, trace w' = trace w ++ evs /\ existsb is_http_get evs = false.




(** *** Further sample inputs *)

(** A world in which the API answers every request with the example
    entry, and a server with no relation yet and no fault to come. *)
Definition example_world : world :=
  world_of full_env
    (HttpResponse 200
       (Some (JObj [("Time Series (Daily)"%string,
                     JObj [entry_with_volume "2024-01-02" (JStr "21000000")])]))).


(** The row of the example entry at the next day. *)
Definition next_row : row :=
  mk_row "MSFT" (PyDate.mk_date 2024 1 3)
         (open_price msft_row) (high_price msft_row) (low_price msft_row)
         (close_price msft_row) 100.

(** * Properties *)

(** ** The coercions

    Values of [float], [int] and [strptime] as CPython 3.11 computes
    them. *)

Example float_decimal :
  PyFloat.float_of_string "0.1" = Some (S754_finite false 7205759403792794 (-56)).
Proof. vm_compute. reflexivity. Qed.

Example float_grammar :
  PyFloat.float_of_string "  +.1e+1_0  "
  = Some (S754_finite false 8388608000000000 (-23))
  /\ PyFloat.float_of_string "1_000" = Some (S754_finite false 8796093022208000 (-43))
  /\ PyFloat.float_of_string "1." = Some (S754_finite false 4503599627370496 (-52))
  /\ PyFloat.float_of_string "-0" = Some (S754_zero true)
  /\ PyFloat.float_of_string "Infinity" = Some (S754_infinity false)
  /\ PyFloat.float_of_string "-nan" = Some S754_nan.
Proof. vm_compute. repeat split. Qed.

Example float_rejects :
  map PyFloat.float_of_string
      ["" ; "." ; "1e" ; "1__0" ; "_1" ; "1_" ; "1_e5" ; "0x10" ; "1 2" ; "1,000" ; "n/a"]%string
  = [None; None; None; None; None; None; None; None; None; None; None].
Proof. vm_compute. reflexivity. Qed.

Example float_rounding :
  PyFloat.float_of_string "9007199254740993"
  = Some (S754_finite false 4503599627370496 1)
  /\ PyFloat.float_of_string "9007199254740995"
     = Some (S754_finite false 4503599627370498 1)
  /\ PyFloat.float_of_string "2.4703282292062327e-324" = Some (S754_zero false)
  /\ PyFloat.float_of_string "2.4703282292062328e-324"
     = Some (S754_finite false 1 (-1074))
  /\ PyFloat.float_of_string "1.7976931348623158e308"
     = Some (S754_finite false 9007199254740991 971)
  /\ PyFloat.float_of_string "1.7976931348623159e308" = Some (S754_infinity false)
  /\ PyFloat.float_of_string "1e999" = Some (S754_infinity false).
Proof. vm_compute. repeat split. Qed.

Example int_truncates :
  PyFloat.int_of_float (S754_finite true 7100318787764224 (-46)) = Ok (-100)
  /\ PyFloat.int_of_float (S754_infinity false) = Raise OverflowError
  /\ PyFloat.int_of_float S754_nan = Raise ValueError.
Proof. vm_compute. repeat split. Qed.

Example strptime_accepts :
  PyDate.strptime_Ymd "2024-02-29" = Some (PyDate.mk_date 2024 2 29)
  /\ PyDate.strptime_Ymd "2024-1-2" = Some (PyDate.mk_date 2024 1 2)
  /\ PyDate.strptime_Ymd "2024-01- 2" = Some (PyDate.mk_date 2024 1 2)
  /\ PyDate.strptime_Ymd "0001-01-01" = Some (PyDate.mk_date 1 1 1).
Proof. vm_compute. repeat split. Qed.

Example strptime_rejects :
  map PyDate.strptime_Ymd
      ["2023-02-29"; "2024-13-01"; "2024-04-31"; "2024-01-02x"; "2024-01-02 ";
       "0000-01-02"; "2024/01/02"; "24-01-02"; "02/01/2024"; ""]%string
  = [None; None; None; None; None; None; None; None; None; None].
Proof. vm_compute. reflexivity. Qed.

(** ** Configuration lookups *)

Lemma get_env_var_falsy name default w :
  falsy (match environ w !! name with Some v => Some v | None => default end) = true ->
  get_env_var name default true w = (Raise (RuntimeError (MissingEnvVar name)), w).
Proof.
  intros H. unfold get_env_var, mbind, M_bind, os_getenv. simpl. by rewrite H.
Qed.

Lemma get_env_var_optional name d w :
  exists v, get_env_var name (Some d) false w = (Ok (Some v), w).
Proof.
  unfold get_env_var, mbind, M_bind, os_getenv. simpl.
  destruct (environ w !! name); eauto.
Qed.

(** C10. A lookup with [required=True] of a variable that is set to the
    empty string raises the same missing-configuration error, in the same
    state, as the lookup of that variable when it is not set at all; the
    empty string is not returned. *)
Theorem C10_empty_value_is_missing (name : string) (default : option string) (w : world) :
  environ w !! name = Some EmptyString ->
  get_env_var name default true w
  = (Raise (RuntimeError (MissingEnvVar name)), w)
  /\ get_env_var name None true (set_environ (delete name (environ w)) w)
     = (Raise (RuntimeError (MissingEnvVar name)),
        set_environ (delete name (environ w)) w).
Proof.
  intros H. split.
  - apply get_env_var_falsy. by rewrite H.
  - apply get_env_var_falsy. simpl. by rewrite lookup_delete_eq.
Qed.

(** C10 at an environment where the database user is set to the empty
    string. *)
Lemma C10_witness :
  get_env_var "POSTGRES_USER" None true
    (world_of {[ "POSTGRES_USER" := EmptyString ]} HttpUnreachable)
  = (Raise (RuntimeError (MissingEnvVar "POSTGRES_USER")),
     world_of {[ "POSTGRES_USER" := EmptyString ]} HttpUnreachable).
Proof.
  refine (proj1 (C10_empty_value_is_missing "POSTGRES_USER" None _ _)).
  vm_compute. reflexivity.
Defined.

(** The lookups made with [required=True]: the API credential in
    [fetch_stock_data], and the database user, password and name, in that
    order, in [get_db_connection]. *)
Lemma fetch_requires_api_key symbol w :
  falsy (environ w !! "ALPHAVANTAGE_API_KEY") = true ->
  fetch_stock_data symbol w
  = (Raise (RuntimeError (MissingEnvVar "ALPHAVANTAGE_API_KEY")), w).
Proof.
  intros H. unfold fetch_stock_data, mbind at 1, M_bind at 1.
  rewrite get_env_var_falsy; [done|]. revert H.
  match goal with |- context [falsy (match ?x with _ => _ end)] => by destruct x end.
Qed.

Lemma get_env_var_truthy name w v :
  environ w !! name = Some v -> falsy (Some v) = false ->
  get_env_var name None true w = (Ok (Some v), w).
Proof.
  intros H Hv. unfold get_env_var, mbind, M_bind, os_getenv. simpl.
  rewrite H. simpl in *. by rewrite Hv.
Qed.

Lemma get_db_connection_requires_user w :
  falsy (environ w !! "POSTGRES_USER") = true ->
  get_db_connection w = (Raise (RuntimeError (MissingEnvVar "POSTGRES_USER")), w).
Proof.
  intros H. unfold get_db_connection, mbind at 1, M_bind at 1.
  rewrite get_env_var_falsy; [done|]. revert H.
  match goal with |- context [falsy (match ?x with _ => _ end)] => by destruct x end.
Qed.

Lemma get_db_connection_requires_password w user :
  environ w !! "POSTGRES_USER" = Some user -> falsy (Some user) = false ->
  falsy (environ w !! "POSTGRES_PASSWORD") = true ->
  get_db_connection w = (Raise (RuntimeError (MissingEnvVar "POSTGRES_PASSWORD")), w).
Proof.
  intros Hu Hu' H. unfold get_db_connection, mbind at 1, M_bind at 1.
  rewrite (get_env_var_truthy _ _ _ Hu Hu'). unfold mbind at 1, M_bind at 1.
  rewrite get_env_var_falsy; [done|]. revert H.
  match goal with |- context [falsy (match ?x with _ => _ end)] => by destruct x end.
Qed.

Lemma get_db_connection_requires_db w user password :
  environ w !! "POSTGRES_USER" = Some user -> falsy (Some user) = false ->
  environ w !! "POSTGRES_PASSWORD" = Some password -> falsy (Some password) = false ->
  falsy (environ w !! "POSTGRES_DB") = true ->
  get_db_connection w = (Raise (RuntimeError (MissingEnvVar "POSTGRES_DB")), w).
Proof.
  intros Hu Hu' Hp Hp' H. unfold get_db_connection, mbind at 1, M_bind at 1.
  rewrite (get_env_var_truthy _ _ _ Hu Hu'). unfold mbind at 1, M_bind at 1.
  rewrite (get_env_var_truthy _ _ _ Hp Hp'). unfold mbind at 1, M_bind at 1.
  rewrite get_env_var_falsy; [done|]. revert H.
  match goal with |- context [falsy (match ?x with _ => _ end)] => by destruct x end.
Qed.

(** ** The fetcher *)

Lemma api_key_configured key w :
  environ w !! "ALPHAVANTAGE_API_KEY" = Some key -> key <> EmptyString ->
  get_env_var "ALPHAVANTAGE_API_KEY" None true w = (Ok (Some key), w).
Proof.
  intros H Hk. unfold get_env_var, mbind, M_bind, os_getenv. simpl. rewrite H.
  simpl. destruct (String.eqb_spec key EmptyString); [done|done].
Qed.

Lemma raise_for_status_success st body w :
  success_status st -> raise_for_status (st, body) w = (Ok tt, w).
Proof.
  intros H. unfold raise_for_status. simpl.
  destruct (Z.leb_spec 400 st), (Z.ltb_spec st 600); simpl; try done.
  exfalso. apply H. lia.
Qed.



(** A body that is not a container (null, a boolean, a number) has no
    keys to test: the [in] test itself raises [TypeError]. *)
Lemma fetch_body_not_a_container (symbol key : string) (w : world) (st : Z) (data : json) :
  environ w !! "ALPHAVANTAGE_API_KEY" = Some key -> key <> EmptyString ->
  remote w (api_request symbol (Some key)) = HttpResponse st (Some data) ->
  success_status st ->
  py_in "Error Message" data = Raise TypeError ->
  (fetch_stock_data symbol w).1 = Raise TypeError.
Proof.
  intros Hkey Hne Hresp Hst Hin.
  unfold fetch_stock_data, mbind at 1, M_bind at 1.
  rewrite (api_key_configured key w Hkey Hne).
  unfold try_except, mbind, M_bind, logging, effect, requests_get. simpl.
  unfold api_request in Hresp. rewrite Hresp.
  rewrite raise_for_status_success by done. simpl. by rewrite Hin.
Qed.

(** C5. When the API credential is not set, [fetch_stock_data] raises the
    missing-configuration error for every symbol and leaves the world as
    it was: no request is sent.  [main] then raises the same error, and
    the only effects of the run are log records. *)
Theorem C5_missing_credential_no_request (symbol : string) (w : world) :
  environ w !! "ALPHAVANTAGE_API_KEY" = None ->
  fetch_stock_data symbol w
  = (Raise (RuntimeError (MissingEnvVar "ALPHAVANTAGE_API_KEY")), w)
  /\ exists w',
      main w = (Raise (RuntimeError (MissingEnvVar "ALPHAVANTAGE_API_KEY")), w')
      /\ forallb is_log (new_events w w') = true
      /\ existsb is_http_get (new_events w w') = false
      /\ server w' = server w /\ connections w' = connections w.
Proof.
  intros H.
  assert (Hf : forall s w0, environ w0 = environ w ->
             fetch_stock_data s w0
             = (Raise (RuntimeError (MissingEnvVar "ALPHAVANTAGE_API_KEY")), w0)).
  { intros s w0 Hw0. unfold fetch_stock_data, mbind at 1, M_bind at 1.
    rewrite get_env_var_falsy; [done|]. by rewrite Hw0, H. }
  split; [by apply Hf|].
  destruct (get_env_var_optional "STOCK_SYMBOL" "MSFT" w) as [v Hv].
  unfold main, mbind at 1, M_bind at 1. rewrite Hv.
  unfold main_try, mbind, M_bind, logging, effect, try_except.
  rewrite Hf by done. simpl.
  eexists. split; [reflexivity|].
  unfold new_events. simpl. rewrite <- app_assoc, drop_app_length. done.
Qed.

(** C5 at an empty environment. *)
Lemma C5_witness :
  fetch_stock_data "MSFT" (world_of ∅ HttpUnreachable)
  = (Raise (RuntimeError (MissingEnvVar "ALPHAVANTAGE_API_KEY")),
     world_of ∅ HttpUnreachable).
Proof.
  refine (proj1 (C5_missing_credential_no_request "MSFT" _ _)).
  vm_compute. reflexivity.
Defined.

(** ** The normalizer *)

Lemma parse_step_ok symbol rows item r w :
  parse_entry symbol item.1 item.2 = Ok r ->
  parse_step symbol rows item w = (Ok (rows ++ [r]), w).
Proof.
  intros H. unfold parse_step, try_except, mbind, M_bind, lift. by rewrite H.
Qed.

Lemma parse_step_skip symbol rows item e w :
  parse_entry symbol item.1 item.2 = Raise e ->
  is_KeyError e || is_ValueError e = true ->
  parse_step symbol rows item w
  = (Ok rows, emit (Log WARNING "Skipping date %s due to parsing error: %s"
                        [ArgStr item.1; ArgExn e]) w).
Proof.
  intros H He. unfold parse_step, try_except, mbind, M_bind, lift.
  rewrite H, He. done.
Qed.

Lemma parse_step_fatal symbol rows item e w :
  parse_entry symbol item.1 item.2 = Raise e ->
  is_KeyError e || is_ValueError e = false ->
  parse_step symbol rows item w = (Raise e, w).
Proof.
  intros H He. unfold parse_step, try_except, mbind, M_bind, lift.
  rewrite H, He. done.
Qed.

Lemma for_each_cons {A B} (body : B -> A -> M B) x xs acc w :
  for_each body (x :: xs) acc w
  = match body acc x w with
    | (Ok acc', w') => for_each body xs acc' w'
    | (Raise e, w') => (Raise e, w')
    end.
Proof. reflexivity. Qed.

Lemma emit_all_nil w : emit_all [] w = w.
Proof. destruct w. unfold emit_all. simpl. by rewrite app_nil_r. Qed.

Lemma emit_all_cons e evs w : emit_all (e :: evs) w = emit_all evs (emit e w).
Proof. unfold emit_all, emit. simpl. by rewrite <- app_assoc. Qed.

(** The rows of a run of the loop that ends normally are the rows of the
    entries it keeps, in the order of the entries. *)
Lemma for_each_parse_rows symbol items : forall acc w rows w',
  for_each (parse_step symbol) items acc w = (Ok rows, w') ->
  rows = acc ++ omap (kept_row symbol) items.
Proof.
  induction items as [|item items IH]; intros acc w rows w' H.
  - simpl in H. inversion H. by rewrite app_nil_r.
  - rewrite for_each_cons in H. simpl. unfold kept_row at 1.
    destruct (parse_entry symbol item.1 item.2) as [r|e] eqn:He.
    + rewrite (parse_step_ok _ _ _ _ _ He) in H.
      apply IH in H. by rewrite <- app_assoc in H.
    + destruct (is_KeyError e || is_ValueError e) eqn:Hc.
      * rewrite (parse_step_skip _ _ _ _ _ He Hc) in H. by apply IH in H.
      * rewrite (parse_step_fatal _ _ _ _ _ He Hc) in H. done.
Qed.

(** A loop over entries that are all skipped keeps what it had and logs
    one warning per entry. *)
Lemma for_each_parse_skipped symbol items : forall acc w,
  Forall (fun item => exists e, parse_entry symbol item.1 item.2 = Raise e
                        /\ is_KeyError e || is_ValueError e = true) items ->
  for_each (parse_step symbol) items acc w
  = (Ok acc, emit_all (flat_map (skip_warning symbol) items) w).
Proof.
  induction items as [|item items IH]; intros acc w H.
  - simpl. by rewrite emit_all_nil.
  - inversion H as [|? ? (e & He & Hc) Hrest]; subst.
    rewrite for_each_cons, (parse_step_skip _ _ _ _ _ He Hc), IH by done.
    simpl. unfold skip_warning at 2. rewrite He. simpl. by rewrite emit_all_cons.
Qed.

(** C7. The example entry for "MSFT" gives exactly one row:
    ("MSFT", 2024-01-02, 370.0, 375.5, 369.0, 374.0, 21000000). *)
Theorem C7_msft_example (w : world) :
  parse_time_series "MSFT"
    (JObj [entry_with_volume "2024-01-02" (JStr "21000000")]) w
  = (Ok [msft_row], w)
  /\ symbol msft_row = "MSFT"%string
  /\ trade_date msft_row = PyDate.mk_date 2024 1 2
  /\ float_is (open_price msft_row) 370
  /\ float_is (high_price msft_row) 375.5
  /\ float_is (low_price msft_row) 369
  /\ float_is (close_price msft_row) 374
  /\ volume msft_row = 21000000.
Proof.
  split.
  - unfold parse_time_series, mbind, M_bind, lift, dict_items. cbv beta iota.
    rewrite for_each_cons, (parse_step_ok _ _ _ msft_row); [done|].
    vm_compute. reflexivity.
  - repeat split; vm_compute; reflexivity.
Qed.

Lemma assoc_Some_elem {A} k (items : list (string * A)) v :
  assoc k items = Some v -> exists k', (k', v) ∈ items.
Proof.
  induction items as [|[k' v'] items IH]; simpl; [done|].
  destruct (String.eqb k k').
  - intros [= ->]. exists k'. by left.
  - intros H. destruct (IH H) as [k'' Hk]. exists k''. by right.
Qed.

(** Reading a required field of a field mapping and converting it with
    [float] raises [KeyError] or [ValueError], or gives a float; it raises
    when the field is bad. *)
Lemma field_mapping_float v k :
  field_mapping v ->
  (subscript v k ≫= py_float = Raise (KeyError k)
   \/ subscript v k ≫= py_float = Raise ValueError)
  \/ (exists f, subscript v k ≫= py_float = Ok f /\ ~ bad_field v k).
Proof.
  intros (fields & -> & Hstr). unfold bad_field. simpl.
  destruct (assoc k fields) as [x|] eqn:Hk; [|by left; left].
  destruct (assoc_Some_elem _ _ _ Hk) as [k' Hin].
  rewrite Forall_forall in Hstr. destruct (Hstr _ Hin) as [s Hs]. simpl in Hs. subst x.
  simpl. destruct (PyFloat.float_of_string s) as [f|] eqn:Hf.
  - right. exists f. split; [done|]. intros [?|(s' & [= <-] & ?)]; congruence.
  - left. by right.
Qed.


Lemma parse_time_series_for_each symbol items w :
  parse_time_series symbol (JObj items) w = for_each (parse_step symbol) items [] w.
Proof. reflexivity. Qed.


(** Entries the loop does not skip: a volume that [float] reads as an
    infinity makes [int] raise [OverflowError], and a field that is not a
    string or a number makes [float] raise [TypeError]. *)
Lemma parse_entry_huge_volume :
  parse_entry "MSFT" "2024-01-04" (entry_with_volume "2024-01-04" (JStr "1e999")).2
  = Raise OverflowError.
Proof. vm_compute. reflexivity. Qed.

Lemma parse_entry_inf_volume :
  parse_entry "MSFT" "2024-01-04" (entry_with_volume "2024-01-04" (JStr "inf")).2
  = Raise OverflowError.
Proof. vm_compute. reflexivity. Qed.

Lemma parse_entry_null_volume :
  parse_entry "MSFT" "2024-01-04" (entry_with_volume "2024-01-04" JNull).2
  = Raise TypeError.
Proof. vm_compute. reflexivity. Qed.

(** C3, at an input where the code departs from it.  Of three entries, the
    first is well-formed, the second has the volume "n/a" and the third
    has the volume "1e999".  The second entry is skipped with a warning;
    for the third, [float] gives an infinity, [int] raises
    [OverflowError], the clause [except (KeyError, ValueError)] does not
    catch it, and [parse_time_series] raises: no row is returned. *)
Theorem C3_huge_volume_aborts (w : world) :
  parse_time_series "MSFT"
    (JObj [entry_with_volume "2024-01-02" (JStr "21000000");
           entry_with_volume "2024-01-03" (JStr "n/a");
           entry_with_volume "2024-01-04" (JStr "1e999")]) w
  = (Raise OverflowError,
     emit (Log WARNING "Skipping date %s due to parsing error: %s"
               [ArgStr "2024-01-03"; ArgExn ValueError]) w).
Proof.
  rewrite parse_time_series_for_each, for_each_cons.
  rewrite (parse_step_ok _ _ _ msft_row) by (vm_compute; reflexivity).
  rewrite for_each_cons.
  rewrite (parse_step_skip _ _ _ ValueError) by (vm_compute; reflexivity).
  rewrite for_each_cons.
  rewrite (parse_step_fatal _ _ _ OverflowError) by (vm_compute; reflexivity).
  reflexivity.
Qed.

(** C6, at an input where the code departs from it.  An empty raw time
    series gives no rows, and [upsert_stock_data] with no rows returns
    normally, its only effect being a warning in the log: the server and
    the connection are as they were.  But a series in which every entry is
    malformed need not give the empty sequence.  Of two entries, the first
    has the volume "n/a" and the second has the volume [null]: neither has
    five numeric fields.  The first is skipped with a warning; for the
    second, [float] raises [TypeError], the clause
    [except (KeyError, ValueError)] does not catch it, and
    [parse_time_series] raises: nothing is returned. *)
Theorem C6_malformed_entry_aborts (symbol : string) (conn : nat) (w : world) :
  Forall malformed [entry_with_volume "2024-01-02" (JStr "n/a");
                    entry_with_volume "2024-01-03" JNull]
  /\ parse_time_series "MSFT"
       (JObj [entry_with_volume "2024-01-02" (JStr "n/a");
              entry_with_volume "2024-01-03" JNull]) w
     = (Raise TypeError,
        emit (Log WARNING "Skipping date %s due to parsing error: %s"
                  [ArgStr "2024-01-02"; ArgExn ValueError]) w)
  /\ parse_time_series symbol (JObj []) w = (Ok [], w)
  /\ upsert_stock_data conn [] w
     = (Ok tt, emit (Log WARNING "No rows to insert." []) w).
Proof.
  split; [|split; [|done]].
  - constructor; [|constructor; [|constructor]].
    all: right; do 4 apply Exists_cons_tl; apply Exists_cons_hd.
    all: intros [f Hf]; vm_compute in Hf; discriminate.
  - rewrite parse_time_series_for_each, for_each_cons.
    rewrite (parse_step_skip _ _ _ ValueError) by (vm_compute; reflexivity).
    rewrite for_each_cons.
    rewrite (parse_step_fatal _ _ _ TypeError) by (vm_compute; reflexivity).
    reflexivity.
Qed.

(** [int] of a finite float is its exact value truncated toward zero. *)
Lemma int_of_float_truncate f n :
  PyFloat.int_of_float f = Ok n ->
  exists q, PyFloat.to_Q f = Some q /\ n = truncate q.
Proof.
  destruct f as [s|s| |s m e]; simpl; try done.
  - intros [= <-]. by exists 0%Q.
  - intros [= <-]. destruct (Z.leb_spec 0 e) as [He|He].
    + eexists. split; [reflexivity|].
      destruct s; unfold truncate; simpl; by rewrite Z.quot_1_r.
    + eexists. split; [reflexivity|].
      assert (Hpow : 0 < 2 ^ (- e)) by (apply Z.pow_pos_nonneg; lia).
      destruct s; unfold truncate; simpl; rewrite Z2Pos.id by done.
      * change (Z.neg m) with (- Z.pos m). rewrite Z.quot_opp_l by lia.
        by rewrite Z.quot_div_nonneg by lia.
      * by rewrite Z.quot_div_nonneg by lia.
Qed.

Lemma result_bind_Ok {A B} (m : result A) (f : A -> result B) b :
  m ≫= f = Ok b -> exists a, m = Ok a /\ f a = Ok b.
Proof. destruct m as [a|e]; simpl; [by exists a|done]. Qed.

(** The volume of the row of an entry is [int(float(v))] for the value
    [v] of its volume field. *)
Lemma parse_entry_volume symbol date_str daily r :
  parse_entry symbol date_str daily = Ok r ->
  exists v f, subscript daily "5. volume" = Ok v /\ py_float v = Ok f
              /\ PyFloat.int_of_float f = Ok (volume r).
Proof.
  unfold parse_entry. intros H.
  do 5 (apply result_bind_Ok in H as (? & _ & H)).
  apply result_bind_Ok in H as (n & Hn & H).
  apply result_bind_Ok in Hn as (f & Hf & Hn).
  apply result_bind_Ok in Hf as (v & Hv & Hf).
  injection H as <-. by exists v, f.
Qed.

(** C9. Every row [parse_time_series] returns comes from an entry of the
    series, and when the volume field of that entry is a string, the
    volume of the row is the value of the binary64 number [float] reads
    from the string, truncated toward zero.  So "21000000" gives 21000000
    and "100.9" gives 100, while "9007199254740993", which binary64 cannot
    represent, gives 9007199254740992. *)
Theorem C9_volume_through_float
  (symbol : string) (items : list (string * json)) (w w' : world)
  (rows : list row) (r : row) :
  parse_time_series symbol (JObj items) w = (Ok rows, w') ->
  r ∈ rows ->
  (exists date_str daily,
      (date_str, daily) ∈ items
      /\ parse_entry symbol date_str daily = Ok r
      /\ forall s, subscript daily "5. volume" = Ok (JStr s) ->
           exists f q, PyFloat.float_of_string s = Some f
                       /\ PyFloat.to_Q f = Some q
                       /\ volume r = truncate q)
  /\ (py_float (JStr "21000000") ≫= PyFloat.int_of_float = Ok 21000000
      /\ py_float (JStr "100.9") ≫= PyFloat.int_of_float = Ok 100
      /\ py_float (JStr "9007199254740993") ≫= PyFloat.int_of_float
         = Ok 9007199254740992).
Proof.
  intros Hrun Hr. split; [|by vm_compute].
  rewrite parse_time_series_for_each in Hrun.
  apply for_each_parse_rows in Hrun. simpl in Hrun. subst rows.
  apply list_elem_of_omap in Hr as ([date_str daily] & Hin & Hk).
  unfold kept_row in Hk. simpl in Hk.
  destruct (parse_entry symbol date_str daily) as [r'|] eqn:He; [|done].
  injection Hk as ->.
  exists date_str, daily. split; [done|]. split; [done|].
  intros s Hs. destruct (parse_entry_volume _ _ _ _ He) as (v & f & Hv & Hf & Hn).
  rewrite Hs in Hv. injection Hv as <-. simpl in Hf.
  destruct (PyFloat.float_of_string s) as [f'|]; [|done]. injection Hf as ->.
  destruct (int_of_float_truncate _ _ Hn) as (q & Hq & ->). by exists f, q.
Qed.

(** C9 at the example entry. *)
Lemma C9_witness :
  exists date_str daily,
    (date_str, daily) ∈ [entry_with_volume "2024-01-02" (JStr "21000000")]
    /\ parse_entry "MSFT" date_str daily = Ok msft_row
    /\ forall s, subscript daily "5. volume" = Ok (JStr s) ->
         exists f q, PyFloat.float_of_string s = Some f
                     /\ PyFloat.to_Q f = Some q
                     /\ volume msft_row = truncate q.
Proof.
  refine (proj1 (C9_volume_through_float "MSFT" _ (world_of full_env HttpUnreachable)
                   _ [msft_row] msft_row _ _)).
  - vm_compute. reflexivity.
  - apply list_elem_of_singleton. reflexivity.
Defined.

(** ** The store *)

Lemma conn_update_lookup conn db c evs w c0 :
  connections w !! conn = Some c0 ->
  connections (conn_update conn db c evs w) !! conn = Some c.
Proof.
  intros H. simpl. apply list_lookup_insert_eq. by eapply lookup_lt_Some.
Qed.

Lemma conn_update_twice conn db c evs db' c' evs' w :
  conn_update conn db' c' evs' (conn_update conn db c evs w)
  = conn_update conn db' c' (evs ++ evs') w.
Proof.
  unfold conn_update. simpl. by rewrite list_insert_insert_eq, app_assoc.
Qed.

Lemma conn_update_id conn w c :
  connections w !! conn = Some c -> conn_update conn (server w) c [] w = w.
Proof.
  intros H. destruct w. unfold conn_update. simpl in *.
  by rewrite list_insert_id, app_nil_r.
Qed.

Lemma emit_conn_update ev conn db c evs w :
  emit ev (conn_update conn db c evs w) = conn_update conn db c (evs ++ [ev]) w.
Proof. unfold emit, conn_update. simpl. by rewrite app_assoc. Qed.

Lemma conn_call_spec conn ev step w c :
  connections w !! conn = Some c ->
  conn_call conn ev step w
  = (db_result (step (server w) c).1.1,
     conn_update conn (step (server w) c).1.2 (step (server w) c).2 [ev] w).
Proof.
  intros H. unfold conn_call. rewrite H.
  destruct (step (server w) c) as [[[e|] db] c']; reflexivity.
Qed.

Lemma execute_pages_run conn pages : forall w c,
  connections w !! conn = Some c ->
  exists evs,
    for_each (fun _ page => cur_execute conn (InsertOnConflictUpdate page)) pages tt w
    = (db_result (run_pages pages (server w) c).1.1,
       conn_update conn (run_pages pages (server w) c).1.2
                   (run_pages pages (server w) c).2 evs w).
Proof.
  induction pages as [|page pages IH]; intros w c Hc.
  - exists []. simpl. by rewrite conn_update_id.
  - rewrite for_each_cons. unfold cur_execute at 1.
    rewrite (conn_call_spec _ _ _ _ _ Hc). simpl run_pages.
    destruct (server_execute (InsertOnConflictUpdate page) (server w) c)
      as [[[e|] db1] c1] eqn:Hex; simpl.
    + by eexists.
    + destruct (IH (conn_update conn db1 c1
                      [DbExecute conn (InsertOnConflictUpdate page)] w) c1)
        as [evs Hevs]; [by eapply conn_update_lookup|].
      rewrite Hevs. simpl. rewrite conn_update_twice. by eexists.
Qed.

Lemma upsert_try_run conn rows w c :
  connections w !! conn = Some c ->
  exists evs,
    upsert_try conn rows w
    = (db_result (run_try rows (server w) c).1.1,
       conn_update conn (run_try rows (server w) c).1.2
                   (run_try rows (server w) c).2 evs w).
Proof.
  intros Hc. unfold upsert_try, run_try, mbind at 1, M_bind at 1, conn_cursor.
  rewrite Hc. destruct c as [st tx].
  destruct st; simpl; try (exists []; by rewrite conn_update_id).
  unfold mbind at 1, M_bind at 1, execute_values.
  destruct (execute_pages_run conn (paginate page_size rows) w _ Hc) as [evs ->].
  destruct (run_pages (paginate page_size rows) (server w) (mk_connection Open tx))
    as [[[e|] db1] c1]; simpl; [by eexists|].
  unfold mbind at 1, M_bind at 1, conn_commit.
  erewrite conn_call_spec by (by eapply conn_update_lookup). simpl.
  destruct (server_commit db1 c1) as [[[e|] db2] c2]; simpl;
    rewrite conn_update_twice; [by eexists|].
  unfold logging, effect. rewrite emit_conn_update. by eexists.
Qed.

(** [upsert_stock_data] with a batch that is not empty does to the server
    and the connection what [run_upsert] says, and when it raises, it has
    called [rollback]. *)
Lemma upsert_stock_data_run conn rows w c :
  rows <> [] ->
  connections w !! conn = Some c ->
  exists evs,
    upsert_stock_data conn rows w
    = ((run_upsert rows (server w) c).1.1,
       conn_update conn (run_upsert rows (server w) c).1.2
                   (run_upsert rows (server w) c).2 evs w)
    /\ ((run_try rows (server w) c).1.1 <> None -> DbRollback conn ∈ evs).
Proof.
  intros Hrows Hc. destruct rows as [|r0 rows]; [done|].
  unfold upsert_stock_data, try_except, run_upsert.
  destruct (upsert_try_run conn (r0 :: rows) w c Hc) as [evs ->].
  destruct (run_try (r0 :: rows) (server w) c) as [[[e|] db1] c1]; simpl.
  - unfold upsert_except. simpl. unfold mbind at 1, M_bind at 1, handling, conn_rollback.
    erewrite conn_call_spec by (by eapply conn_update_lookup). simpl.
    rewrite conn_update_twice.
    destruct (server_rollback db1 c1) as [[[e'|] db2] c2]; simpl.
    + eexists. split; [done|]. intros _. apply elem_of_app. right. by left.
    + unfold mbind, M_bind, logging, effect, raise. rewrite emit_conn_update.
      eexists. split; [done|]. intros _.
      apply elem_of_app. left. apply elem_of_app. right. by left.
  - eexists. split; [done|]. done.
Qed.

Lemma paginate_upto_concat {A} (n : nat) (l : list A) : forall fuel,
  (0 < n)%nat -> (length l <= fuel)%nat -> concat (paginate_upto fuel n l) = l.
Proof.
  intros fuel Hn. revert l. induction fuel as [|fuel IH]; intros l Hl.
  - destruct l; [done|simpl in Hl; lia].
  - destruct l as [|x l]; [done|]. simpl paginate_upto. rewrite concat_cons.
    rewrite IH; [apply take_drop|]. rewrite length_drop. simpl in *. lia.
Qed.

Lemma paginate_concat (rows : list row) : concat (paginate page_size rows) = rows.
Proof. apply paginate_upto_concat; unfold page_size; lia. Qed.

Lemma paginate_nonempty (rows : list row) : rows <> [] -> paginate page_size rows <> [].
Proof. by destruct rows. Qed.

Lemma pop_fault_relation db : relation (pop_fault db).2 = relation db.
Proof. unfold pop_fault. by destruct (faults db). Qed.

Lemma pop_fault_clock db : clock (pop_fault db).2 = clock db.
Proof. unfold pop_fault. by destruct (faults db). Qed.

(** Statements and rollbacks leave the committed relation alone. *)
Lemma server_execute_relation stmt db c :
  relation (server_execute stmt db c).1.2 = relation db.
Proof.
  unfold server_execute. destruct (status c); [|done..].
  pose proof (pop_fault_relation db) as Hp.
  destruct (pop_fault db) as [f db1]. simpl in Hp.
  destruct f, (transaction c); simpl; try done.
  all: try by destruct (run_statement _ _ _).
Qed.

Lemma server_rollback_relation db c :
  relation (server_rollback db c).1.2 = relation db.
Proof.
  unfold server_rollback. pose proof (pop_fault_relation db) as Hp.
  destruct (status c), (transaction c); try done.
  all: by destruct (pop_fault db) as [[] db1].
Qed.

Lemma server_rollback_idle db c :
  status (server_rollback db c).2 = Open ->
  transaction (server_rollback db c).2 = Idle.
Proof.
  unfold server_rollback.
  destruct c as [[] []]; simpl; try done.
  all: by destruct (pop_fault db) as [[] db1].
Qed.

Lemma run_pages_relation pages : forall db c,
  relation (run_pages pages db c).1.2 = relation db.
Proof.
  induction pages as [|page pages IH]; intros db c; [done|]. simpl.
  pose proof (server_execute_relation (InsertOnConflictUpdate page) db c) as H.
  destruct (server_execute _ db c) as [[[e|] db1] c1]; [done|].
  simpl in H. by rewrite IH.
Qed.

(** A commit that fails leaves the committed relation alone. *)
Lemma server_commit_failed db c e db' c' :
  server_commit db c = (Some e, db', c') -> relation db' = relation db.
Proof.
  unfold server_commit. pose proof (pop_fault_relation db) as Hp.
  destruct (status c), (transaction c); try (by intros [= <- <- <-]).
  all: destruct (pop_fault db) as [[] db1]; simpl in *; by intros [= <- <- <-].
Qed.

(** A statement of [execute_values] that succeeds: the connection is open,
    the relation exists, the keys of the page are distinct, and every row
    of the page is applied to the relation of the transaction. *)
Lemma server_execute_insert_ok page db c db' c' :
  server_execute (InsertOnConflictUpdate page) db c = (None, db', c') ->
  status c = Open
  /\ exists t0, visible_relation db c = Some t0
     /\ c' = mk_connection Open
               (Active (Some (foldl (upsert_row (txn_start db c)) t0 page))
                       (txn_start db c))
     /\ clock db <= clock db'
     /\ (started_before db c -> txn_start db c < clock db').
Proof.
  unfold server_execute, visible_relation, txn_start, started_before.
  destruct c as [st tx]. simpl. destruct st; [|done..].
  pose proof (pop_fault_relation db) as Hr. pose proof (pop_fault_clock db) as Hk.
  destruct (pop_fault db) as [f db1]. simpl in Hr, Hk.
  destruct f, tx as [|work start|]; simpl; try done.
  - rewrite Hr. destruct (relation db) as [t0|]; simpl; [|done].
    destruct (negb _); [done|]. destruct (negb _); [done|].
    intros [= <- <-]. split; [done|]. exists t0. simpl. rewrite Hk.
    split; [done|]. split; [done|]. split; [lia|]. intros _. lia.
  - destruct work as [t0|]; simpl; [|done].
    destruct (negb _); [done|]. destruct (negb _); [done|].
    intros [= <- <-]. split; [done|]. exists t0. rewrite Hk.
    split; [done|]. split; [done|]. split; [lia|]. intros H. by eapply H.
Qed.

(** The pages of a batch that succeed apply every row of the batch, in
    order, to the relation of one transaction. *)
Lemma run_pages_ok pages : forall db c db' c',
  pages <> [] ->
  run_pages pages db c = (None, db', c') ->
  status c = Open
  /\ exists t0, visible_relation db c = Some t0
     /\ c' = mk_connection Open
               (Active (Some (foldl (upsert_row (txn_start db c)) t0 (concat pages)))
                       (txn_start db c))
     /\ clock db <= clock db'
     /\ (started_before db c -> txn_start db c < clock db').
Proof.
  induction pages as [|page pages IH]; intros db c db' c' Hne H; [done|].
  simpl in H.
  destruct (server_execute (InsertOnConflictUpdate page) db c)
    as [[[e|] db1] c1] eqn:Hex; [done|].
  apply server_execute_insert_ok in Hex as (Hst & t0 & Hvis & -> & Hclk & Hsb).
  split; [done|]. exists t0. split; [done|].
  set (s := txn_start db c) in *.
  destruct pages as [|page' pages].
  - simpl in H. injection H as <- <-. simpl. rewrite app_nil_r.
    split; [done|]. split; [done|exact Hsb].
  - apply IH in H as (_ & t1 & Hvis1 & -> & Hclk1 & Hsb1); [|done].
    unfold visible_relation, txn_start in Hvis1, Hsb1 |- *.
    simpl transaction in *. cbv iota in *. injection Hvis1 as <-.
    rewrite !concat_cons, !foldl_app. split; [done|]. split; [lia|].
    intros Hb. apply Hsb1.
    intros work start [= <- <-]. specialize (Hsb Hb). lia.
Qed.

(** The [try] block that succeeds has committed every row of the batch,
    and nothing else. *)
Lemma run_try_ok rows db c db' c' :
  rows <> [] ->
  run_try rows db c = (None, db', c') ->
  status c = Open
  /\ exists t0, visible_relation db c = Some t0
     /\ relation db' = Some (foldl (upsert_row (txn_start db c)) t0 rows)
     /\ c' = mk_connection Open Idle
     /\ (started_before db c -> txn_start db c < clock db').
Proof.
  intros Hne. unfold run_try. destruct (status c) eqn:Hst; [|done..].
  destruct (run_pages (paginate page_size rows) db c) as [[[e|] db1] c1] eqn:Hp;
    [by intros [= <-]|].
  apply run_pages_ok in Hp as (_ & t0 & Hvis & -> & Hclk & Hsb);
    [|by apply paginate_nonempty].
  rewrite paginate_concat. unfold server_commit. simpl.
  pose proof (pop_fault_clock db1) as Hk.
  destruct (pop_fault db1) as [[] db2]; simpl in *; [|done..].
  intros [= <- <-]. split; [done|]. exists t0. simpl. rewrite Hk.
  repeat split; done.
Qed.

(** The [try] block that fails has committed nothing. *)
Lemma run_try_failed rows db c e db' c' :
  run_try rows db c = (Some e, db', c') -> relation db' = relation db.
Proof.
  unfold run_try. destruct (status c); [|by intros [= <- <- <-]..].
  pose proof (run_pages_relation (paginate page_size rows) db c) as Hr.
  destruct (run_pages (paginate page_size rows) db c) as [[[e1|] db1] c1];
    simpl in Hr.
  - by intros [= <- <- <-].
  - intros H. apply server_commit_failed in H. congruence.
Qed.

(** What a batch does to a key: the last row for the key wins, and a key
    without a row keeps its record. *)
Lemma latest_cons k r rows :
  latest k (r :: rows)
  = match latest k rows with
    | Some r' => Some r'
    | None => if decide (row_key r = k) then Some r else None
    end.
Proof.
  unfold latest. rewrite filter_cons.
  destruct (decide (row_key r = k)); [|by destruct (last _)].
  destruct (filter _ rows) as [|r' l] eqn:Hf; [done|].
  change (last (r :: r' :: l)) with (last (r' :: l)).
  by destruct (last (r' :: l)) eqn:Hl; [|apply last_None in Hl].
Qed.

Lemma foldl_upsert_lookup now rows : forall (t : table) k,
  foldl (upsert_row now) t rows !! k
  = match latest k rows with
    | Some r => Some (record_of now r)
    | None => t !! k
    end.
Proof.
  induction rows as [|r rows IH]; intros t k; [done|].
  simpl. rewrite IH, latest_cons. destruct (latest k rows); [done|].
  unfold upsert_row. destruct (decide (row_key r = k)) as [<-|Hne].
  - by rewrite lookup_insert_eq.
  - by rewrite lookup_insert_ne.
Qed.

Lemma latest_key k rows r : latest k rows = Some r -> row_key r = k /\ r ∈ rows.
Proof.
  unfold latest. intros H. apply last_Some in H as [l Hl].
  assert (Hin : r ∈ filter (fun r => row_key r = k) rows).
  { rewrite Hl. apply elem_of_app. right. by left. }
  by apply list_elem_of_filter in Hin.
Qed.

Lemma latest_None k rows : latest k rows = None -> k ∉ row_key <$> rows.
Proof.
  unfold latest. intros H. apply last_None in H.
  intros Hin. apply list_elem_of_fmap in Hin as (r & -> & Hr).
  assert (Hf : r ∈ filter (fun r' => row_key r' = row_key r) rows)
    by by apply list_elem_of_filter.
  rewrite H in Hf. by apply not_elem_of_nil in Hf.
Qed.

Lemma new_events_conn_update conn db c evs w :
  new_events w (conn_update conn db c evs w) = evs.
Proof. unfold new_events. simpl. apply drop_app_length. Qed.

(** C4. A batch that is not empty is applied in one transaction.  Either
    [upsert_stock_data] returns normally and the committed relation is the
    one the transaction saw with every row of the batch applied; or the
    [try] block failed with some cause, and then the committed relation is
    exactly as before the call, [rollback] has been called, the connection,
    if still open, has no transaction left, and the exception raised
    carries the cause.  No other committed state is possible. *)
Theorem C4_upsert_atomic
  (conn : nat) (rows : list row) (w : world) (c : connection)
  (r : result unit) (w1 : world) :
  rows <> [] ->
  connections w !! conn = Some c ->
  upsert_stock_data conn rows w = (r, w1) ->
  (r = Ok tt
   /\ exists t0, visible_relation (server w) c = Some t0
      /\ relation (server w1)
         = Some (foldl (upsert_row (txn_start (server w) c)) t0 rows))
  \/ (exists e cause,
        r = Raise e
        /\ (upsert_try conn rows w).1 = Raise (Psycopg2Error cause None)
        /\ carries e cause
        /\ relation (server w1) = relation (server w)
        /\ DbRollback conn ∈ new_events w w1
        /\ forall c1, connections w1 !! conn = Some c1 ->
                      status c1 = Open -> transaction c1 = Idle).
Proof.
  intros Hne Hc Hrun.
  destruct (upsert_stock_data_run conn rows w c Hne Hc) as (evs & Heq & Hrb).
  rewrite Heq in Hrun. injection Hrun as <- <-.
  destruct (upsert_try_run conn rows w c Hc) as [evs' Htry].
  unfold run_upsert in *.
  destruct (run_try rows (server w) c) as [[[cause|] db1] c1] eqn:Ht.
  - right. apply run_try_failed in Ht. simpl in Htry.
    pose proof (server_rollback_relation db1 c1) as Hrel.
    pose proof (server_rollback_idle db1 c1) as Hidle.
    destruct (server_rollback db1 c1) as [[[e'|] db2] c2]; simpl in *.
    + exists (Psycopg2Error e' (Some cause)), cause.
      rewrite Htry, new_events_conn_update.
      split; [done|]. split; [done|]. split; [right; by eexists|].
      split; [congruence|]. split; [by apply Hrb|].
      intros c3. rewrite list_lookup_insert_eq by (by eapply lookup_lt_Some).
      intros [= <-]. done.
    + exists (Psycopg2Error cause None), cause.
      rewrite Htry, new_events_conn_update.
      split; [done|]. split; [done|]. split; [by left|].
      split; [congruence|]. split; [by apply Hrb|].
      intros c3. rewrite list_lookup_insert_eq by (by eapply lookup_lt_Some).
      intros [= <-]. done.
  - left. apply run_try_ok in Ht as (_ & t0 & Hvis & Hrel & _); [|done].
    split; [done|]. by exists t0.
Qed.

(** C4 at a batch of one row whose commit the server refuses. *)
Lemma C4_witness :
  (@Raise unit (Psycopg2Error DatabaseError None) = Ok tt
   /\ exists t0,
      visible_relation (server (connected_world [NoFault; ServerError]))
                       (mk_connection Open Idle) = Some t0
      /\ relation (server (upsert_stock_data 0 [msft_row]
                             (connected_world [NoFault; ServerError])).2)
         = Some (foldl (upsert_row
                          (txn_start (server (connected_world [NoFault; ServerError]))
                                     (mk_connection Open Idle)))
                       t0 [msft_row]))
  \/ (exists e cause,
        @Raise unit (Psycopg2Error DatabaseError None) = Raise e
        /\ (upsert_try 0 [msft_row] (connected_world [NoFault; ServerError])).1
           = Raise (Psycopg2Error cause None)
        /\ carries e cause
        /\ relation (server (upsert_stock_data 0 [msft_row]
                               (connected_world [NoFault; ServerError])).2)
           = relation (server (connected_world [NoFault; ServerError]))
        /\ DbRollback 0
           ∈ new_events (connected_world [NoFault; ServerError])
                        (upsert_stock_data 0 [msft_row]
                           (connected_world [NoFault; ServerError])).2
        /\ forall c1,
            connections (upsert_stock_data 0 [msft_row]
                           (connected_world [NoFault; ServerError])).2 !! 0%nat
            = Some c1 ->
            status c1 = Open -> transaction c1 = Idle).
Proof.
  refine (C4_upsert_atomic 0 [msft_row] (connected_world [NoFault; ServerError])
            (mk_connection Open Idle) _ _ _ _ _).
  - discriminate.
  - reflexivity.
  - vm_compute. reflexivity.
Defined.

(** The two outcomes of a batch that is not empty. *)
Lemma upsert_outcomes conn rows w c r w1 :
  rows <> [] ->
  connections w !! conn = Some c ->
  upsert_stock_data conn rows w = (r, w1) ->
  (r = Ok tt
   /\ exists t0, visible_relation (server w) c = Some t0
      /\ relation (server w1)
         = Some (foldl (upsert_row (txn_start (server w) c)) t0 rows))
  \/ relation (server w1) = relation (server w).
Proof.
  intros Hne Hc Hrun.
  destruct (upsert_stock_data_run conn rows w c Hne Hc) as (evs & Heq & _).
  rewrite Heq in Hrun. injection Hrun as <- <-. unfold run_upsert.
  destruct (run_try rows (server w) c) as [[[cause|] db1] c1] eqn:Ht.
  - right. apply run_try_failed in Ht.
    pose proof (server_rollback_relation db1 c1) as Hrel.
    destruct (server_rollback db1 c1) as [[[e'|] db2] c2]; simpl in *; congruence.
  - left. apply run_try_ok in Ht as (_ & t0 & Hvis & Hrel & _); [|done].
    split; [done|]. by exists t0.
Qed.

Lemma upsert_empty conn w :
  upsert_stock_data conn [] w = (Ok tt, emit (Log WARNING "No rows to insert." []) w).
Proof. reflexivity. Qed.

(** A batch that is committed: what the relation holds afterwards, and
    the state the connection is left in. *)
Lemma upsert_committed conn rows w c w1 :
  rows <> [] ->
  connections w !! conn = Some c ->
  upsert_stock_data conn rows w = (Ok tt, w1) ->
  exists t0,
    visible_relation (server w) c = Some t0
    /\ relation (server w1)
       = Some (foldl (upsert_row (txn_start (server w) c)) t0 rows)
    /\ connections w1 !! conn = Some (mk_connection Open Idle)
    /\ (started_before (server w) c -> txn_start (server w) c < clock (server w1)).
Proof.
  intros Hne Hc Hrun.
  destruct (upsert_stock_data_run conn rows w c Hne Hc) as (evs & Heq & _).
  rewrite Heq in Hrun. unfold run_upsert in Hrun.
  destruct (run_try rows (server w) c) as [[[cause|] db1] c1] eqn:Ht.
  - by destruct (server_rollback db1 c1) as [[[e'|] db2] c2].
  - apply run_try_ok in Ht as (_ & t0 & Hvis & Hrel & -> & Hsb); [|done].
    injection Hrun as <-. exists t0. simpl.
    rewrite list_lookup_insert_eq by (by eapply lookup_lt_Some). done.
Qed.

Lemma values_of_record now r :
  values_of (record_of now r)
  = (open_price r, high_price r, low_price r, close_price r, volume r).
Proof. reflexivity. Qed.



(** ** The pipeline *)

Lemma emit_all_app evs1 evs2 w :
  emit_all evs2 (emit_all evs1 w) = emit_all (evs1 ++ evs2) w.
Proof. unfold emit_all. simpl. by rewrite app_assoc. Qed.

Lemma quiet_ret {A} (a : A) : quiet (mret a).
Proof. intros w r w' [= <- <-]. exists []. by rewrite emit_all_nil. Qed.

Lemma quiet_raise {A} e : quiet (@raise A e).
Proof. intros w r w' [= <- <-]. exists []. by rewrite emit_all_nil. Qed.

Lemma quiet_lift {A} (x : result A) : quiet (lift x).
Proof. intros w r w' [= <- <-]. exists []. by rewrite emit_all_nil. Qed.

Lemma quiet_logging lvl template args : quiet (logging lvl template args).
Proof. intros w r w' [= <- <-]. by exists [Log lvl template args]. Qed.

Lemma quiet_os_getenv name default : quiet (os_getenv name default).
Proof. intros w r w' [= <- <-]. exists []. by rewrite emit_all_nil. Qed.

Lemma quiet_requests_get u ps t : quiet (requests_get u ps t).
Proof.
  intros w r w'. unfold requests_get.
  destruct (remote w _); intros [= <- <-]; by eexists [_].
Qed.

Lemma quiet_bind {A B} (m : M A) (f : A -> M B) :
  quiet m -> (forall a, quiet (f a)) -> quiet (m ≫= f).
Proof.
  intros Hm Hf w r w'. unfold mbind, M_bind.
  destruct (m w) as [[a|e] w1] eqn:H1.
  - intros H2. destruct (Hm _ _ _ H1) as [evs1 ->].
    destruct (Hf _ _ _ _ H2) as [evs2 ->]. rewrite emit_all_app. by eexists.
  - intros [= <- <-]. by eapply Hm.
Qed.

Lemma quiet_try_except {A} (m : M A) (h : exn -> M A) :
  quiet m -> (forall e, quiet (h e)) -> quiet (try_except m h).
Proof.
  intros Hm Hh w r w'. unfold try_except.
  destruct (m w) as [[a|e] w1] eqn:H1.
  - intros [= <- <-]. by eapply Hm.
  - intros H2. destruct (Hm _ _ _ H1) as [evs1 ->].
    destruct (Hh _ _ _ _ H2) as [evs2 ->]. rewrite emit_all_app. by eexists.
Qed.

Lemma quiet_for_each {A B} (body : B -> A -> M B) xs :
  (forall acc x, quiet (body acc x)) -> forall acc, quiet (for_each body xs acc).
Proof.
  intros Hb. induction xs as [|x xs IH]; intros acc; simpl.
  - apply quiet_ret.
  - apply quiet_bind; [apply Hb|apply IH].
Qed.

Create HintDb quiet.
#[local] Hint Resolve quiet_ret quiet_raise quiet_lift quiet_logging quiet_os_getenv
  quiet_requests_get quiet_bind quiet_try_except quiet_for_each : quiet.

Ltac quiet_cases :=
  repeat first
    [ progress (intros)
    | match goal with
      | |- quiet (if ?b then _ else _) => destruct b
      | |- quiet (match ?x with _ => _ end) => destruct x
      end
    | solve [eauto with quiet]
    | apply quiet_bind
    | apply quiet_try_except
    | apply quiet_for_each ].

Lemma quiet_get_env_var name default required : quiet (get_env_var name default required).
Proof. unfold get_env_var. quiet_cases. Qed.

Lemma quiet_fetch_stock_data symbol : quiet (fetch_stock_data symbol).
Proof.
  unfold fetch_stock_data, raise_for_status, resp_json.
  pose proof quiet_get_env_var. quiet_cases.
Qed.

Lemma quiet_parse_time_series symbol time_series :
  quiet (parse_time_series symbol time_series).
Proof. unfold parse_time_series, parse_step. quiet_cases. Qed.

(** [get_db_connection] returns a new connection object, open, behind the
    connections there were, or raises and adds none. *)
Lemma connect_outcome_env name default required (k : option string -> M nat) w r w' :
  (forall v, k v w = (r, w') -> connect_outcome w r w') ->
  (get_env_var name default required ≫= k) w = (r, w') ->
  connect_outcome w r w'.
Proof.
  intros Hk. unfold get_env_var, mbind, M_bind, os_getenv. simpl.
  destruct (required && falsy _).
  - intros [= <- <-]. right. eexists. split; [done|]. split; [done|].
    exists []. by rewrite app_nil_r.
  - apply Hk.
Qed.

Lemma get_db_connection_cases w r w' :
  get_db_connection w = (r, w') -> connect_outcome w r w'.
Proof.
  unfold get_db_connection.
  do 5 (apply connect_outcome_env; intros ?).
  unfold try_except, psycopg2_connect.
  destruct (pop_fault (server w)) as [[] db]; simpl.
  - intros [= <- <-]. left. by exists db.
  - intros [= <- <-]. right. eexists. split; [done|]. split; [done|]. by eexists [_].
  - intros [= <- <-]. right. eexists. split; [done|]. split; [done|]. by eexists [_].
Qed.

Lemma emit_as_conn_update conn c ev w :
  connections w !! conn = Some c ->
  emit ev w = conn_update conn (server w) c [ev] w.
Proof.
  intros H. unfold emit, conn_update. by rewrite list_insert_id.
Qed.

Lemma ensure_table_exists_session conn w c r w' :
  connections w !! conn = Some c ->
  ensure_table_exists conn w = (r, w') ->
  exists db c' evs, w' = conn_update conn db c' evs w.
Proof.
  intros Hc. unfold ensure_table_exists, mbind, M_bind, conn_cursor. rewrite Hc.
  destruct c as [[] tx]; simpl.
  2,3: intros [= <- <-]; eexists (server w), _, []; by rewrite conn_update_id.
  unfold cur_execute. rewrite (conn_call_spec _ _ _ _ _ Hc).
  intros [= <- <-]. by eexists _, _, _.
Qed.

Lemma upsert_stock_data_session conn rows w c r w' :
  connections w !! conn = Some c ->
  upsert_stock_data conn rows w = (r, w') ->
  exists db c' evs, w' = conn_update conn db c' evs w.
Proof.
  intros Hc. destruct (decide (rows = [])) as [->|Hne].
  - rewrite upsert_empty. intros [= <- <-].
    rewrite (emit_as_conn_update conn c) by done. by eexists _, _, _.
  - destruct (upsert_stock_data_run conn rows w c Hne Hc) as (evs & -> & _).
    intros [= <- <-]. by eexists _, _, _.
Qed.

(** The [try ... finally] of [main]: whatever the schema and upsert steps
    do, the connection is closed when the block is left. *)
Lemma store_block_closes conn rows w c r w' :
  connections w !! conn = Some c ->
  try_finally (ensure_table_exists conn;; upsert_stock_data conn rows)
              (conn_close conn) w = (r, w') ->
  exists db evs,
    w' = conn_update conn db (mk_connection Closed Idle) (evs ++ [DbClose conn]) w.
Proof.
  intros Hc. unfold try_finally.
  destruct ((ensure_table_exists conn;; upsert_stock_data conn rows) w)
    as [r1 w1] eqn:Hbody.
  assert (Hw1 : exists db c' evs, w1 = conn_update conn db c' evs w).
  { revert Hbody. unfold mbind, M_bind.
    destruct (ensure_table_exists conn w) as [[[]|e] w0] eqn:He.
    - destruct (ensure_table_exists_session _ _ _ _ _ Hc He) as (db0 & c0 & evs0 & ->).
      intros Hu.
      eapply upsert_stock_data_session in Hu as (db1 & c1 & evs1 & ->);
        [|by eapply conn_update_lookup].
      rewrite conn_update_twice. by eexists _, _, _.
    - intros [= <- <-]. by eapply ensure_table_exists_session. }
  destruct Hw1 as (db & c' & evs & ->).
  unfold conn_close. erewrite conn_call_spec by (by eapply conn_update_lookup).
  simpl. rewrite conn_update_twice. intros [= <- <-]. by eexists _, _.
Qed.

Lemma connection_released_emit_all evs w w' :
  connection_released (emit_all evs w) w' -> connection_released w w'.
Proof.
  intros [[Hc [evs' Ht]]|[Hc (before & during & after & Ht & Hlog)]];
    unfold connection_released; simpl in *.
  - left. split; [done|]. exists (evs ++ evs'). by rewrite app_assoc.
  - right. split; [done|]. exists (evs ++ before), during, after.
    by rewrite Ht, <- !app_assoc.
Qed.

Lemma connection_released_log lvl template args w w' :
  connection_released w w' ->
  connection_released w (emit (Log lvl template args) w').
Proof.
  intros [[Hc [evs' Ht]]|[Hc (before & during & after & Ht & Hlog)]];
    unfold connection_released; simpl in *.
  - left. split; [done|]. exists (evs' ++ [Log lvl template args]).
    by rewrite Ht, app_assoc.
  - right. split; [done|].
    exists before, during, (after ++ [Log lvl template args]). split.
    + rewrite Ht, <- !app_assoc. simpl. by rewrite <- !app_assoc.
    + rewrite forallb_app, Hlog. done.
Qed.

Lemma connection_released_refl w : connection_released w w.
Proof. left. split; [done|]. exists []. by rewrite app_nil_r. Qed.

Lemma main_try_releases symbol w r w' :
  main_try symbol w = (r, w') -> connection_released w w'.
Proof.
  unfold main_try, mbind at 1, M_bind at 1.
  destruct (fetch_stock_data symbol w) as [[time_series|e] w1] eqn:Hf;
    destruct (quiet_fetch_stock_data _ _ _ _ Hf) as [evs1 ->];
    [|intros [= <- <-];
      apply (connection_released_emit_all evs1), connection_released_refl].
  intros H. apply (connection_released_emit_all evs1). revert H.
  unfold mbind at 1, M_bind at 1.
  destruct (parse_time_series symbol time_series _) as [[rows|e] w2] eqn:Hp;
    destruct (quiet_parse_time_series _ _ _ _ _ Hp) as [evs2 ->];
    [|intros [= <- <-];
      apply (connection_released_emit_all evs2), connection_released_refl].
  intros H. apply (connection_released_emit_all evs2). revert H.
  generalize (emit_all evs2 (emit_all evs1 w)). clear. intros w.
  unfold mbind at 1, M_bind at 1.
  destruct (get_db_connection w) as [rc w3] eqn:Hg.
  apply get_db_connection_cases in Hg as [(db & -> & ->)|(e & -> & Hc & evs & Ht)].
  2: { intros [= <- <-]. left. split; [done|]. by exists evs. }
  unfold mbind at 1, M_bind at 1.
  destruct (try_finally _ _ _) as [rb w4] eqn:Hb.
  eapply store_block_closes in Hb as (db' & evs & ->);
    [|simpl; by apply list_lookup_middle].
  assert (Hclosed :
    connection_released w
      (conn_update (length (connections w)) db' (mk_connection Closed Idle)
         (evs ++ [DbClose (length (connections w))])
         (mk_world (environ w) (remote w) db
            (connections w ++ [mk_connection Open Idle])
            (trace w ++ [DbConnect (length (connections w))])))).
  { right. simpl. split.
    - rewrite insert_app_r_alt by done. by rewrite Nat.sub_diag.
    - exists [], evs, []. by rewrite <- !app_assoc. }
  destruct rb as [[]|e].
  - intros [= <- <-]. by apply connection_released_log.
  - intros [= <- <-]. done.
Qed.

Lemma main_releases w r w' : main w = (r, w') -> connection_released w w'.
Proof.
  destruct (get_env_var_optional "STOCK_SYMBOL" "MSFT" w) as [symbol Hsym].
  unfold main, mbind at 1, M_bind at 1. rewrite Hsym.
  unfold mbind at 1, M_bind at 1, logging at 1, effect, try_except.
  change (emit ?ev w) with (emit_all [ev] w).
  destruct (main_try symbol _) as [[[]|e] w1] eqn:Ht;
    apply main_try_releases in Ht.
  - intros [= <- <-]. by eapply connection_released_emit_all.
  - unfold mbind, M_bind, logging, effect, raise. intros [= <- <-].
    apply connection_released_log. by eapply connection_released_emit_all.
Qed.

(** C8. A connection that a run of [main] has opened is closed when the
    run ends, however it ends: when [main] returns or raises, the
    connection object is closed and has no transaction, and among the
    effects of the run the [close] of the connection comes after its
    opening and is followed by log records only.  This covers the runs in
    which [ensure_table_exists] or [upsert_stock_data] raises: the
    connection is closed before the failure is logged and the exception
    leaves [main]. *)
Theorem C8_connection_closed (w : world) (r : result unit) (w' : world) (conn : nat) :
  main w = (r, w') ->
  (length (connections w) <= conn < length (connections w'))%nat ->
  connections w' !! conn = Some (mk_connection Closed Idle)
  /\ exists before during after,
      new_events w w' = before ++ DbConnect conn :: during ++ DbClose conn :: after
      /\ forallb is_log after = true.
Proof.
  intros Hmain Hconn.
  destruct (main_releases _ _ _ Hmain)
    as [[Hc _]|[Hc (before & during & after & Ht & Hlog)]].
  - rewrite Hc in Hconn. lia.
  - rewrite Hc, length_app in Hconn. simpl in Hconn.
    assert (conn = length (connections w)) as -> by lia.
    unfold new_events. rewrite Hc, Ht, drop_app_length.
    split; [by apply list_lookup_middle|]. by exists before, during, after.
Qed.

(** C8 at a run that fetches one entry and fails to store it: the server
    refuses the statement of the upsert. *)
Lemma C8_witness :
  connections (main failing_store_world).2 !! 0%nat
  = Some (mk_connection Closed Idle)
  /\ exists before during after,
      new_events failing_store_world (main failing_store_world).2
      = before ++ DbConnect 0 :: during ++ DbClose 0 :: after
      /\ forallb is_log after = true.
Proof.
  refine (C8_connection_closed _ (main failing_store_world).1 _ 0%nat _ _).
  - apply surjective_pairing.
  - vm_compute. split; [apply le_n|apply le_n].
Defined.

(** In that run [main] raises the error of the server. *)
Lemma failing_store_raises :
  (main failing_store_world).1 = Raise (Psycopg2Error DatabaseError None).
Proof. vm_compute. reflexivity. Qed.

(** * Further properties of the script *)

(** ** Configuration lookups *)

(** X1. A lookup that is not required never raises and leaves the world as it
    is; it returns the variable when it is set, even to the empty string,
    and the default only when the variable is not set.  A required lookup
    returns the variable when it is set to a string that is not empty,
    whatever the default. *)
Theorem get_env_var_returns (name : string) (default : option string) (w : world) :
  get_env_var name default false w = (Ok (env_value w name default), w)
  /\ (forall v, environ w !! name = Some v -> v <> EmptyString ->
                get_env_var name default true w = (Ok (Some v), w))
  /\ (environ w !! name = Some EmptyString ->
      get_env_var name default false w = (Ok (Some EmptyString), w)).
Proof.
  unfold get_env_var, env_value, mbind, M_bind, os_getenv. simpl.
  split; [done|]. split.
  - intros v Hv Hne. rewrite Hv. simpl.
    by destruct (String.eqb_spec v EmptyString).
  - intros Hv. by rewrite Hv.
Qed.

(** ** The fetcher *)

Ltac one_log :=
  eexists [_]; split; [reflexivity|]; split; [reflexivity|];
  split; [simpl; lia|]; intros _; by eexists.

Ltac no_log :=
  exists []; rewrite emit_all_nil; split; [reflexivity|]; split; [reflexivity|];
  split; [simpl; lia|]; done.

(** X2. Whatever the API answers, a call of [fetch_stock_data] with the
    credential configured logs, sends exactly one request, with the
    function, symbol and key parameters and a timeout of 15 seconds, and
    then writes at most one more log record, only when it raises.  It
    changes nothing else. *)
Theorem fetch_sends_one_request
  (symbol key : string) (w : world) (r : result json) (w' : world) :
  environ w !! "ALPHAVANTAGE_API_KEY" = Some key -> key <> EmptyString ->
  fetch_stock_data symbol w = (r, w') ->
  exists logs,
    w' = emit_all logs (requested symbol key w)
    /\ forallb is_log logs = true
    /\ (length logs <= 1)%nat
    /\ (logs <> [] -> exists e, r = Raise e).
Proof.
  intros Hkey Hne. unfold fetch_stock_data, mbind at 1, M_bind at 1.
  rewrite (api_key_configured key w Hkey Hne).
  unfold try_except, mbind, M_bind, logging, effect, requests_get, requested.
  simpl. unfold api_request.
  destruct (remote w _) as [| |st body]; simpl.
  1,2: intros [= <- <-]; one_log.
  unfold raise_for_status. simpl.
  destruct ((400 <=? st) && (st <? 600)); simpl.
  { intros [= <- <-]. one_log. }
  destruct body as [data|]; simpl.
  2: { intros [= <- <-]. one_log. }
  destruct (py_in "Error Message" data) as [[]|e1] eqn:H1; simpl.
  - destruct (subscript data "Error Message") as [v|e2] eqn:H2; simpl.
    + intros [= <- <-]. no_log.
    + destruct data; simpl in H2; try discriminate;
        try (injection H2 as <-; simpl; intros [= <- <-]; no_log).
      destruct (assoc _ items); [discriminate|]. injection H2 as <-. simpl.
      intros [= <- <-]. no_log.
  - destruct (py_in "Time Series (Daily)" data) as [[]|e1'] eqn:H1'; simpl.
    + destruct (subscript data "Time Series (Daily)") as [v|e2] eqn:H2; simpl.
      * intros [= <- <-]. no_log.
      * destruct data; simpl in H2; try discriminate;
          try (injection H2 as <-; simpl; intros [= <- <-]; no_log).
        destruct (assoc _ items); [discriminate|]. injection H2 as <-. simpl.
        intros [= <- <-]. no_log.
    + intros [= <- <-]. no_log.
    + destruct data; simpl in H1'; try discriminate; injection H1' as <-; simpl;
        intros [= <- <-]; no_log.
  - destruct data; simpl in H1; try discriminate; injection H1 as <-; simpl;
      intros [= <- <-]; no_log.
Qed.

Lemma success_status_test st :
  (400 <=? st) && (st <? 600) = false <-> success_status st.
Proof.
  unfold success_status.
  destruct (Z.leb_spec 400 st), (Z.ltb_spec st 600); simpl; split; try done; lia.
Qed.

(** X3. With the credential configured, [fetch_stock_data] returns a value
    exactly when the response has a success status and its body is a JSON
    object without the key "Error Message" and with the key
    "Time Series (Daily)"; the value returned is the value of that key,
    whatever it is. *)
Theorem fetch_returns_the_series (symbol key : string) (w : world) (v : json) :
  environ w !! "ALPHAVANTAGE_API_KEY" = Some key -> key <> EmptyString ->
  (exists w', fetch_stock_data symbol w = (Ok v, w'))
  <-> (exists st items,
          remote w (api_request symbol (Some key))
          = HttpResponse st (Some (JObj items))
          /\ success_status st
          /\ assoc "Error Message" items = None
          /\ assoc "Time Series (Daily)" items = Some v).
Proof.
  intros Hkey Hne. unfold fetch_stock_data, mbind at 1, M_bind at 1.
  rewrite (api_key_configured key w Hkey Hne).
  unfold try_except, mbind, M_bind, logging, effect, requests_get.
  simpl. unfold api_request. split.
  - intros [w' H]. revert H.
    destruct (remote w _) as [| |st body]; simpl; try done.
    unfold raise_for_status. simpl.
    destruct ((400 <=? st) && (st <? 600)) eqn:Hst; simpl; [done|].
    apply success_status_test in Hst.
    destruct body as [data|]; simpl; [|done].
    destruct data as [| | | | |elems|items]; simpl; try done.
    + destruct (is_substring _ _); simpl; [done|].
      by destruct (is_substring _ _).
    + destruct (existsb _ elems); simpl; [done|].
      by destruct (existsb _ elems).
    + destruct (assoc "Error Message" items) as [x|] eqn:He; simpl; [done|].
      destruct (assoc "Time Series (Daily)" items) as [x|] eqn:Hs; simpl; [|done].
      intros [= -> <-]. by exists st, items.
  - intros (st & items & Hr & Hst & He & Hs). eexists. rewrite Hr. simpl.
    unfold raise_for_status. simpl.
    apply success_status_test in Hst. rewrite Hst. simpl.
    rewrite He. simpl. rewrite Hs. simpl. reflexivity.
Qed.

(** [fetch_returns_the_series] at a response with a list under the data
    key. *)
Lemma fetch_returns_the_series_witness :
  exists w', fetch_stock_data "MSFT"
               (world_of full_env
                  (HttpResponse 200
                     (Some (JObj [("Time Series (Daily)"%string, JArr [])]))))
             = (Ok (JArr []), w').
Proof.
  refine (proj2 (fetch_returns_the_series "MSFT" "demo" _ _ _ _) _).
  - vm_compute. reflexivity.
  - discriminate.
  - exists 200, [("Time Series (Daily)"%string, JArr [])].
    split; [reflexivity|]. split; [unfold success_status; lia|].
    split; reflexivity.
Defined.

(** The call up to the answer of the API. *)
Ltac fetch_request Hkey Hne :=
  unfold fetch_stock_data, mbind at 1, M_bind at 1;
  rewrite (api_key_configured _ _ Hkey Hne);
  unfold try_except, mbind, M_bind, logging, effect, requests_get, requested;
  simpl; unfold api_request in *.

(** X4. Failures of the transport are logged once and raised again unchanged:
    a timeout, a connection failure, and a response with a status from 400
    to 599, whatever its body.  A body that is not JSON under a success
    status raises the decoding error of [requests].  In each case the
    request has been sent. *)
Theorem fetch_transport_failures (symbol key : string) (w : world) :
  environ w !! "ALPHAVANTAGE_API_KEY" = Some key -> key <> EmptyString ->
  (remote w (api_request symbol (Some key)) = HttpTimeout ->
   fetch_stock_data symbol w
   = (Raise RequestsTimeout,
      emit (Log ERROR "Timeout while fetching data: %s" [ArgExn RequestsTimeout])
           (requested symbol key w)))
  /\ (remote w (api_request symbol (Some key)) = HttpUnreachable ->
      fetch_stock_data symbol w
      = (Raise RequestsConnectionError,
         emit (Log ERROR "Request error while fetching data: %s"
                   [ArgExn RequestsConnectionError])
              (requested symbol key w)))
  /\ (forall st body,
        remote w (api_request symbol (Some key)) = HttpResponse st body ->
        400 <= st < 600 ->
        fetch_stock_data symbol w
        = (Raise (RequestsHTTPError st),
           emit (Log ERROR "Request error while fetching data: %s"
                     [ArgExn (RequestsHTTPError st)])
                (requested symbol key w)))
  /\ (forall st,
        remote w (api_request symbol (Some key)) = HttpResponse st None ->
        success_status st ->
        exists template,
          fetch_stock_data symbol w
          = (Raise RequestsJSONDecodeError,
             emit (Log ERROR template [ArgExn RequestsJSONDecodeError])
                  (requested symbol key w))).
Proof.
  intros Hkey Hne. split; [|split; [|split]].
  - intros H. fetch_request Hkey Hne. by rewrite H.
  - intros H. fetch_request Hkey Hne. by rewrite H.
  - intros st body H Hst. fetch_request Hkey Hne. rewrite H. simpl.
    unfold raise_for_status. simpl.
    destruct (Z.leb_spec 400 st), (Z.ltb_spec st 600); simpl; try lia. done.
  - intros st H Hst. fetch_request Hkey Hne. rewrite H. simpl.
    unfold raise_for_status. simpl.
    apply success_status_test in Hst. rewrite Hst. simpl. by eexists.
Qed.

(** [fetch_transport_failures] at an API that does not answer in time. *)
Lemma fetch_transport_failures_witness :
  fetch_stock_data "MSFT" (world_of full_env HttpTimeout)
  = (Raise RequestsTimeout,
     emit (Log ERROR "Timeout while fetching data: %s" [ArgExn RequestsTimeout])
          (requested "MSFT" "demo" (world_of full_env HttpTimeout))).
Proof.
  refine (proj1 (fetch_transport_failures "MSFT" "demo" _ _ _) _).
  - vm_compute. reflexivity.
  - discriminate.
  - reflexivity.
Defined.

(** [fetch_sends_one_request] at an API that answers with an error
    status. *)
Lemma fetch_sends_one_request_witness :
  exists logs,
    (fetch_stock_data "MSFT" (world_of full_env (HttpResponse 503 None))).2
    = emit_all logs (requested "MSFT" "demo"
                       (world_of full_env (HttpResponse 503 None)))
    /\ forallb is_log logs = true
    /\ (length logs <= 1)%nat
    /\ (logs <> [] ->
        exists e, (fetch_stock_data "MSFT"
                     (world_of full_env (HttpResponse 503 None))).1 = Raise e).
Proof.
  refine (fetch_sends_one_request "MSFT" "demo" _ _ _ _ _ _).
  - vm_compute. reflexivity.
  - discriminate.
  - apply surjective_pairing.
Defined.

(** X5. A success response whose JSON body is not an object is never returned
    as data and never read as an error payload of the API.  The membership
    tests are those of the value: on a string they look for a substring and
    on an array for an element, and on anything else they raise
    [TypeError]; and the subscript with a key raises [TypeError] on a
    string and on an array.  So the call raises [TypeError] or the
    unexpected-response error, and it does not log the failure: no clause
    of its [try] names [TypeError] or [RuntimeError]. *)
Theorem fetch_non_object_body
  (symbol key : string) (w : world) (st : Z) (data : json) :
  environ w !! "ALPHAVANTAGE_API_KEY" = Some key -> key <> EmptyString ->
  remote w (api_request symbol (Some key)) = HttpResponse st (Some data) ->
  success_status st ->
  (forall items, data <> JObj items) ->
  exists e,
    fetch_stock_data symbol w = (Raise e, requested symbol key w)
    /\ (e = TypeError \/ e = RuntimeError UnexpectedResponse).
Proof.
  intros Hkey Hne Hresp Hst Hobj. fetch_request Hkey Hne. rewrite Hresp. simpl.
  unfold raise_for_status. simpl.
  apply success_status_test in Hst. rewrite Hst. simpl.
  destruct data as [| | | | |elems|items]; simpl; try (eexists; split; [done|by left]).
  - destruct (is_substring _ _); simpl; [eexists; split; [done|by left]|].
    destruct (is_substring _ _); simpl; eexists; (split; [done|]); [by left|by right].
  - destruct (existsb _ elems); simpl; [eexists; split; [done|by left]|].
    destruct (existsb _ elems); simpl; eexists; (split; [done|]); [by left|by right].
  - by destruct (Hobj items).
Qed.

(** [fetch_non_object_body] at a body that is a string which holds the
    name of the error key. *)
Lemma fetch_non_object_body_witness :
  exists e,
    fetch_stock_data "MSFT"
      (world_of full_env (HttpResponse 200 (Some (JStr "Error Message: none"))))
    = (Raise e,
       requested "MSFT" "demo"
         (world_of full_env (HttpResponse 200 (Some (JStr "Error Message: none")))))
    /\ (e = TypeError \/ e = RuntimeError UnexpectedResponse).
Proof.
  apply (fetch_non_object_body "MSFT" "demo" _ 200 (JStr "Error Message: none")).
  - reflexivity.
  - discriminate.
  - reflexivity.
  - unfold success_status. lia.
  - discriminate.
Defined.

(** ** The normalizer *)

Lemma for_each_parse_world symbol items : forall acc w rows w',
  for_each (parse_step symbol) items acc w = (Ok rows, w') ->
  w' = emit_all (flat_map (skip_warning symbol) items) w.
Proof.
  induction items as [|item items IH]; intros acc w rows w' H.
  - simpl in H. injection H as _ <-. by rewrite emit_all_nil.
  - rewrite for_each_cons in H. simpl. unfold skip_warning at 1.
    destruct (parse_entry symbol item.1 item.2) as [r|e] eqn:He.
    + rewrite (parse_step_ok _ _ _ _ _ He) in H. by apply IH in H.
    + destruct (is_KeyError e || is_ValueError e) eqn:Hc.
      * rewrite (parse_step_skip _ _ _ _ _ He Hc) in H. apply IH in H.
        simpl. by rewrite emit_all_cons.
      * rewrite (parse_step_fatal _ _ _ _ _ He Hc) in H. done.
Qed.

Lemma kept_or_warned symbol items :
  (length (omap (kept_row symbol) items)
   + length (flat_map (skip_warning symbol) items) = length items)%nat.
Proof.
  induction items as [|item items IH]; [done|]. simpl.
  unfold kept_row at 1, skip_warning at 1.
  destruct (parse_entry symbol item.1 item.2); simpl;
    change (list_omap _ _ (kept_row symbol) items)
      with (omap (kept_row symbol) items); lia.
Qed.

(** X6. When [parse_time_series] returns, its argument is a dict, the rows
    are the rows of the entries that convert, in the order of the entries,
    every other entry has been logged once, nothing else has changed, and
    the rows and the warnings add up to the entries. *)
Theorem parse_time_series_returns
  (symbol : string) (series : json) (w : world) (rows : list row) (w' : world) :
  parse_time_series symbol series w = (Ok rows, w') ->
  exists items,
    series = JObj items
    /\ rows = omap (kept_row symbol) items
    /\ w' = emit_all (flat_map (skip_warning symbol) items) w
    /\ (length rows + length (flat_map (skip_warning symbol) items)
        = length items)%nat.
Proof.
  destruct series as [| | | | | |items]; try done.
  rewrite parse_time_series_for_each. intros H. exists items.
  split; [done|].
  pose proof (for_each_parse_rows _ _ _ _ _ _ H) as Hrows. simpl in Hrows.
  split; [done|]. split; [by eapply for_each_parse_world|].
  rewrite Hrows. apply kept_or_warned.
Qed.

(** [parse_time_series_returns] at a series with one entry that converts
    and one that does not. *)
Lemma parse_time_series_returns_witness :
  exists items,
    JObj [entry_with_volume "2024-01-02" (JStr "21000000");
          entry_with_volume "2024-01-03" (JStr "n/a")] = JObj items
    /\ [msft_row] = omap (kept_row "MSFT") items
    /\ (parse_time_series "MSFT"
          (JObj [entry_with_volume "2024-01-02" (JStr "21000000");
                 entry_with_volume "2024-01-03" (JStr "n/a")])
          (world_of full_env HttpUnreachable)).2
       = emit_all (flat_map (skip_warning "MSFT") items)
                  (world_of full_env HttpUnreachable)
    /\ (length [msft_row] + length (flat_map (skip_warning "MSFT") items)
        = length items)%nat.
Proof.
  refine (parse_time_series_returns "MSFT" _ _ _ _ _).
  vm_compute. reflexivity.
Defined.

(** X7. [parse_time_series] raises [AttributeError], with no effect, when its
    argument is not a dict.  On a dict it raises at the first entry whose
    conversion raises something other than [KeyError] and [ValueError]: it
    raises that exception, after a warning for each entry before it that
    does not convert, and the entries after it are not looked at. *)
Theorem parse_time_series_raises
  (symbol : string) (before after : list (string * json))
  (item : string * json) (e : exn) (series : json) (w : world) :
  ((forall items, series <> JObj items) ->
   parse_time_series symbol series w = (Raise AttributeError, w))
  /\ (Forall (fun it => forall e', parse_entry symbol it.1 it.2 = Raise e' ->
                                   is_KeyError e' || is_ValueError e' = true) before ->
      parse_entry symbol item.1 item.2 = Raise e ->
      is_KeyError e || is_ValueError e = false ->
      parse_time_series symbol (JObj (before ++ item :: after)) w
      = (Raise e, emit_all (flat_map (skip_warning symbol) before) w)).
Proof.
  split.
  - intros H. destruct series; try done. by destruct (H items).
  - intros Hbefore He Hfatal. rewrite parse_time_series_for_each.
    generalize (@nil row) as acc. revert w.
    induction before as [|it before IH]; intros w acc.
    + change ([] ++ item :: after) with (item :: after).
      rewrite for_each_cons, (parse_step_fatal _ _ _ _ _ He Hfatal).
      simpl. by rewrite emit_all_nil.
    + inversion Hbefore as [|? ? Hit Hrest]; subst.
      change ((it :: before) ++ item :: after)
        with (it :: (before ++ item :: after)).
      rewrite for_each_cons. simpl. unfold skip_warning at 1.
      destruct (parse_entry symbol it.1 it.2) as [r|e'] eqn:Hp.
      * rewrite (parse_step_ok _ _ _ _ _ Hp). by rewrite IH.
      * rewrite (parse_step_skip _ _ _ _ _ Hp (Hit _ eq_refl)).
        rewrite IH by done. simpl. by rewrite emit_all_cons.
Qed.

(** [parse_time_series_raises] at a series whose second entry has a null
    volume. *)
Lemma parse_time_series_raises_witness :
  parse_time_series "MSFT"
    (JObj ([entry_with_volume "2024-01-02" (JStr "n/a")]
           ++ entry_with_volume "2024-01-03" JNull
           :: [entry_with_volume "2024-01-04" (JStr "21000000")]))
    (world_of full_env HttpUnreachable)
  = (Raise TypeError,
     emit_all (flat_map (skip_warning "MSFT")
                        [entry_with_volume "2024-01-02" (JStr "n/a")])
              (world_of full_env HttpUnreachable)).
Proof.
  refine (proj2 (parse_time_series_raises "MSFT" _ _ _ TypeError JNull _) _ _ _).
  - constructor; [|constructor]. intros e'. vm_compute. by intros [= <-].
  - vm_compute. reflexivity.
  - reflexivity.
Defined.

(** A date [strptime] returns is a calendar date. *)
Lemma strptime_Ymd_valid s d : PyDate.strptime_Ymd s = Some d -> valid_date d.
Proof.
  unfold PyDate.strptime_Ymd.
  destruct (PyDate.year_pat _) as [[y l1]|]; [|done].
  destruct (PyDate.dash l1) as [l2|]; [|done].
  destruct (PyDate.first_match y _) as [[[[y' m] dd] rest]|]; [|done].
  destruct rest; [|done]. unfold PyDate.make_date.
  destruct (_ && _) eqn:H; [|done]. intros [= <-].
  repeat (apply andb_prop in H as [H ?]). unfold valid_date. simpl. lia.
Qed.

Lemma parse_entry_fields sym date_str daily r :
  parse_entry sym date_str daily = Ok r ->
  symbol r = sym /\ strptime date_str = Ok (trade_date r).
Proof.
  unfold parse_entry. intros H.
  apply result_bind_Ok in H as (d & Hd & H).
  do 5 (apply result_bind_Ok in H as (? & _ & H)).
  by injection H as <-.
Qed.

(** X8. Every row [parse_time_series] returns carries the symbol it was
    called with and a calendar date: a year from 1 to 9999, a month from 1
    to 12 and a day of that month, leap years included. *)
Theorem parse_time_series_rows_valid
  (sym : string) (series : json) (w : world) (rows : list row) (w' : world)
  (r : row) :
  parse_time_series sym series w = (Ok rows, w') ->
  r ∈ rows ->
  symbol r = sym /\ valid_date (trade_date r).
Proof.
  destruct series as [| | | | | |items]; try done.
  rewrite parse_time_series_for_each. intros H Hr.
  apply for_each_parse_rows in H. simpl in H. subst rows.
  apply list_elem_of_omap in Hr as ([date_str daily] & _ & Hk).
  unfold kept_row in Hk. simpl in Hk.
  destruct (parse_entry sym date_str daily) as [r'|] eqn:He; [|done].
  injection Hk as ->. apply parse_entry_fields in He as [Hs Hd].
  split; [done|]. unfold strptime in Hd.
  destruct (PyDate.strptime_Ymd date_str) as [d|] eqn:Hp; [|done].
  injection Hd as ->. by eapply strptime_Ymd_valid.
Qed.

(** [parse_time_series_rows_valid] at the example entry. *)
Lemma parse_time_series_rows_valid_witness :
  symbol msft_row = "MSFT"%string /\ valid_date (trade_date msft_row).
Proof.
  refine (parse_time_series_rows_valid "MSFT"
            (JObj [entry_with_volume "2024-01-02" (JStr "21000000")])
            (world_of full_env HttpUnreachable) [msft_row] _ msft_row _ _).
  - vm_compute. reflexivity.
  - apply list_elem_of_singleton. reflexivity.
Defined.

Lemma field_mapping_string v k f :
  field_mapping v -> subscript v k ≫= py_float = Ok f ->
  exists s, subscript v k = Ok (JStr s) /\ PyFloat.float_of_string s = Some f.
Proof.
  intros (fields & -> & Hstr). simpl.
  destruct (assoc k fields) as [x|] eqn:Hk; simpl; [|done].
  destruct (assoc_Some_elem _ _ _ Hk) as [k' Hin].
  rewrite Forall_forall in Hstr. destruct (Hstr _ Hin) as [s Hs]. simpl in Hs. subst x.
  simpl. destruct (PyFloat.float_of_string s) as [f'|] eqn:Hf; simpl; [|done].
  intros [= ->]. by exists s.
Qed.

(** X9. For an entry whose values are all strings, the conversion raises
    nothing but [ValueError], [KeyError] for one of the five fields, and
    [OverflowError]; and it raises [OverflowError] only when the volume is
    a string that [float] reads as an infinity.  So such an entry stops the
    loop of [parse_time_series] only in that case. *)
Theorem parse_entry_errors
  (symbol date_str : string) (daily : json) (e : exn) :
  field_mapping daily ->
  parse_entry symbol date_str daily = Raise e ->
  e = ValueError
  \/ (exists k, e = KeyError k /\ k ∈ required_fields)
  \/ (e = OverflowError
      /\ exists s sg, subscript daily "5. volume" = Ok (JStr s)
                      /\ PyFloat.float_of_string s = Some (S754_infinity sg)).
Proof.
  intros Hfm. unfold parse_entry, strptime.
  destruct (PyDate.strptime_Ymd date_str) as [d|]; simpl;
    [|intros [= <-]; by left].
  assert (Hin : forall k, k ∈ required_fields ->
            (exists k', KeyError k = KeyError k' /\ k' ∈ required_fields))
    by (intros k Hk; by exists k).
  repeat
    match goal with
    | |- context [(subscript daily ?k ≫= py_float) ≫= (fun _ : spec_float => _)] =>
        destruct (field_mapping_float daily k Hfm) as [[->| ->]|(? & -> & _)];
        simpl;
        [ intros [= <-]; right; left; apply Hin; unfold required_fields;
          repeat constructor
        | intros [= <-]; by left | ]
    end.
  destruct (subscript daily "5. volume" ≫= py_float) as [f|e'] eqn:Hv; simpl.
  - apply field_mapping_string in Hv as (s & Hs & Hf); [|done].
    destruct f as [sg|sg| |sg m ex]; simpl; try done.
    + intros [= <-]. right. right. split; [done|]. by exists s, sg.
    + intros [= <-]. by left.
  - destruct (field_mapping_float daily "5. volume" Hfm)
      as [[H| H]|(? & H & _)]; rewrite H in Hv; simplify_eq.
    + intros [= <-]. right. left. apply Hin. unfold required_fields.
      repeat constructor.
    + intros [= <-]. by left.
Qed.

(** [parse_entry_errors] at an entry with an infinite volume. *)
Lemma parse_entry_errors_witness :
  OverflowError = ValueError
  \/ (exists k, OverflowError = KeyError k /\ k ∈ required_fields)
  \/ (OverflowError = OverflowError
      /\ exists s sg,
          subscript (entry_with_volume "2024-01-04" (JStr "1e999")).2 "5. volume"
          = Ok (JStr s)
          /\ PyFloat.float_of_string s = Some (S754_infinity sg)).
Proof.
  refine (parse_entry_errors "MSFT" "2024-01-04"
            (entry_with_volume "2024-01-04" (JStr "1e999")).2 OverflowError _ _).
  - eexists. split; [reflexivity|]. repeat constructor; by eexists.
  - vm_compute. reflexivity.
Defined.

(** ** The store *)

Lemma server_execute_create_ok db c db' c' :
  server_execute CreateTableIfNotExists db c = (None, db', c') ->
  status c = Open
  /\ c' = mk_connection Open
            (Active (Some (or_empty (visible_relation db c))) (txn_start db c)).
Proof.
  unfold server_execute, visible_relation, txn_start.
  destruct c as [st tx]. simpl. destruct st; [|done..].
  pose proof (pop_fault_relation db) as Hr. pose proof (pop_fault_clock db) as Hk.
  destruct (pop_fault db) as [f db1]. simpl in Hr, Hk.
  destruct f, tx as [|work start|]; simpl; try done.
  - intros [= <- <-]. by rewrite Hr, Hk.
  - by intros [= <- <-].
Qed.

(** X10. [ensure_table_exists] commits nothing: the committed relation is as
    before, whatever happens.  When it returns, the connection is open and
    the relation exists in its transaction, empty if it did not exist and
    with the records it had if it did; the start time of the transaction is
    that of the transaction that was open, or else the time of the call. *)
Theorem ensure_table_exists_effect
  (conn : nat) (w : world) (c : connection) (r : result unit) (w' : world) :
  connections w !! conn = Some c ->
  ensure_table_exists conn w = (r, w') ->
  relation (server w') = relation (server w)
  /\ (r = Ok tt ->
      connections w' !! conn
      = Some (mk_connection Open
                (Active (Some (or_empty (visible_relation (server w) c)))
                        (txn_start (server w) c)))).
Proof.
  intros Hc. unfold ensure_table_exists, mbind, M_bind, conn_cursor. rewrite Hc.
  destruct c as [[] tx]; simpl; try (by intros [= <- <-]).
  unfold cur_execute. rewrite (conn_call_spec _ _ _ _ _ Hc).
  pose proof (server_execute_relation CreateTableIfNotExists (server w)
                (mk_connection Open tx)) as Hrel.
  destruct (server_execute _ _ _) as [[[e|] db1] c1] eqn:Hex; simpl in *;
    intros [= <- <-]; simpl; (split; [done|]); [done|].
  intros _. apply server_execute_create_ok in Hex as [_ ->].
  apply list_lookup_insert_eq. by eapply lookup_lt_Some.
Qed.

(** [ensure_table_exists_effect] at a server without the relation. *)
Lemma ensure_table_exists_effect_witness :
  relation (server (ensure_table_exists 0
                      (mk_world full_env (fun _ => HttpUnreachable)
                                (mk_database None 7 []) [mk_connection Open Idle] [])).2)
  = None
  /\ (Ok tt = Ok tt ->
      connections (ensure_table_exists 0
                     (mk_world full_env (fun _ => HttpUnreachable)
                               (mk_database None 7 []) [mk_connection Open Idle] [])).2
        !! 0%nat
      = Some (mk_connection Open (Active (Some ∅) 7))).
Proof.
  refine (ensure_table_exists_effect 0
            (mk_world full_env (fun _ => HttpUnreachable)
                      (mk_database None 7 []) [mk_connection Open Idle] [])
            (mk_connection Open Idle) (Ok tt) _ _ _).
  - reflexivity.
  - vm_compute. reflexivity.
Defined.

(** X11. On a connection that is not open, [upsert_stock_data] with rows to
    store raises [InterfaceError] from [rollback], with the
    [InterfaceError] of [cursor] as its context, and the server is not
    contacted: it is as before, the faults to come included. *)
Theorem upsert_on_closed_connection
  (conn : nat) (rows : list row) (w : world) (c : connection) :
  rows <> [] ->
  connections w !! conn = Some c ->
  status c <> Open ->
  upsert_stock_data conn rows w
  = (Raise (Psycopg2Error InterfaceError (Some InterfaceError)),
     emit (DbRollback conn) w).
Proof.
  intros Hne Hc Hst. destruct rows as [|r0 rows]; [done|].
  unfold upsert_stock_data, try_except, upsert_try, mbind at 1, M_bind at 1,
    conn_cursor.
  rewrite Hc. destruct c as [st tx]. destruct st; [done| |]; simpl.
  all: unfold upsert_except; simpl;
    unfold mbind at 1, M_bind at 1, handling, conn_rollback;
    rewrite (conn_call_spec _ _ _ _ _ Hc); simpl;
    unfold conn_update, emit; by rewrite list_insert_id.
Qed.

(** [upsert_on_closed_connection] at a connection that has been closed. *)
Lemma upsert_on_closed_connection_witness :
  upsert_stock_data 0 [msft_row]
    (mk_world full_env (fun _ => HttpUnreachable)
              (mk_database (Some ∅) 0 []) [mk_connection Closed Idle] [])
  = (Raise (Psycopg2Error InterfaceError (Some InterfaceError)),
     emit (DbRollback 0)
          (mk_world full_env (fun _ => HttpUnreachable)
                    (mk_database (Some ∅) 0 []) [mk_connection Closed Idle] [])).
Proof.
  refine (upsert_on_closed_connection 0 [msft_row] _ (mk_connection Closed Idle) _ _ _).
  - discriminate.
  - reflexivity.
  - discriminate.
Defined.

Lemma pop_fault_faults db : faults (pop_fault db).2 = drop 1 (faults db).
Proof. unfold pop_fault. by destruct (faults db) eqn:H; simpl; rewrite ?H. Qed.

Lemma no_fault_for_S n db :
  no_fault_for (S n) db
  <-> (pop_fault db).1 = NoFault /\ no_fault_for n (pop_fault db).2.
Proof.
  unfold no_fault_for. rewrite pop_fault_faults. unfold pop_fault.
  destruct (faults db) as [|f fs]; simpl.
  - rewrite take_nil. split; [done|]. intros _. constructor.
  - rewrite drop_0. split.
    + intros H. by inversion H.
    + intros [-> H]. by constructor.
Qed.

Lemma no_fault_for_0 db : no_fault_for 0 db.
Proof. unfold no_fault_for. rewrite take_0. constructor. Qed.

Lemma no_fault_for_faults n db db' :
  faults db' = faults db -> no_fault_for n db' <-> no_fault_for n db.
Proof. unfold no_fault_for. by intros ->. Qed.

Lemma server_execute_faults stmt db c :
  status c = Open ->
  faults (server_execute stmt db c).1.2 = faults (pop_fault db).2.
Proof.
  unfold server_execute. intros ->.
  destruct (pop_fault db) as [f db1]. simpl.
  destruct f, (transaction c); simpl; try done.
  all: try by destruct (run_statement _ _ _).
Qed.

Ltac page_cases :=
  unfold page_ok;
  match goal with
  | |- context [bool_decide (NoDup ?l)] =>
      let Hd := fresh "Hd" in
      destruct (bool_decide (NoDup l)) eqn:Hd; simpl;
      [ apply bool_decide_eq_true in Hd
      | apply bool_decide_eq_false in Hd;
        split; [done|intros (_ & ? & _); done] ]
  end;
  match goal with
  | |- context [forallb storable ?l] =>
      destruct (forallb storable l); simpl;
      (split; [intros; try done; by repeat split|intros (_ & _ & ?); done])
  end.

(** A statement of [execute_values] on a valid session succeeds exactly
    when nothing goes wrong at the round trip and the server accepts the
    page. *)
Lemma server_execute_insert_valid page db c :
  valid_session db c ->
  (server_execute (InsertOnConflictUpdate page) db c).1.1 = None
  <-> (pop_fault db).1 = NoFault /\ page_ok page.
Proof.
  intros (Hst & Htx & [t Ht]). unfold server_execute, visible_relation in *.
  rewrite Hst. pose proof (pop_fault_relation db) as Hr.
  destruct (pop_fault db) as [f db1]. simpl in Hr.
  destruct f, (transaction c) as [|work start|] eqn:Htxn; simpl; try done.
  - rewrite Hr, Ht. page_cases.
  - subst work. page_cases.
  - split; [done|]. by intros [[=] _].
  - split; [done|]. by intros [[=] _].
  - split; [done|]. by intros [[=] _].
  - split; [done|]. by intros [[=] _].
Qed.

Lemma server_execute_insert_session page db c db' c' :
  server_execute (InsertOnConflictUpdate page) db c = (None, db', c') ->
  valid_session db c
  /\ valid_session db' c'
  /\ (exists work start, transaction c' = Active work start)
  /\ faults db' = drop 1 (faults db).
Proof.
  intros H.
  assert (Hf : faults db' = drop 1 (faults db)).
  { pose proof (server_execute_insert_ok _ _ _ _ _ H) as [Hst _].
    pose proof (server_execute_faults (InsertOnConflictUpdate page) db c Hst) as Hf.
    rewrite H in Hf. simpl in Hf. by rewrite Hf, pop_fault_faults. }
  assert (Htx : transaction c <> Failed).
  { intros Htx. revert H. unfold server_execute.
    destruct (status c); [|done..]. rewrite Htx.
    by destruct (pop_fault db) as [[] db1]. }
  apply server_execute_insert_ok in H as (Hst & t0 & Hvis & -> & _).
  split; [by repeat split; eauto|]. split.
  - repeat split; [done|]. unfold visible_relation. simpl. eauto.
  - split; [by eexists _, _|done].
Qed.

(** The pages of a batch on a valid session succeed exactly when nothing
    goes wrong at their round trips and the server accepts every page. *)
Lemma run_pages_valid pages : forall db c,
  valid_session db c ->
  (run_pages pages db c).1.1 = None
  <-> no_fault_for (length pages) db /\ Forall page_ok pages.
Proof.
  induction pages as [|page pages IH]; intros db c Hv.
  - simpl. split; [|done]. intros _. split; [apply no_fault_for_0|constructor].
  - simpl length. rewrite no_fault_for_S, Forall_cons.
    pose proof (server_execute_insert_valid page db c Hv) as Hex.
    pose proof (server_execute_faults (InsertOnConflictUpdate page) db c
                  (proj1 Hv)) as Hf.
    simpl run_pages.
    destruct (server_execute (InsertOnConflictUpdate page) db c)
      as [[[e|] db1] c1] eqn:H1; simpl in *.
    + split; [done|]. intros ([Hp Hn] & Hpage & _).
      by destruct (proj2 Hex (conj Hp Hpage)).
    + apply server_execute_insert_session in H1 as (_ & Hv1 & _ & _).
      rewrite (IH db1 c1 Hv1), (no_fault_for_faults _ (pop_fault db).2 db1 Hf).
      destruct (proj1 Hex eq_refl) as [Hp Hpage]. tauto.
Qed.

Lemma run_pages_session pages : forall db c db' c',
  pages <> [] ->
  run_pages pages db c = (None, db', c') ->
  valid_session db c
  /\ status c' = Open
  /\ (exists work start, transaction c' = Active work start)
  /\ faults db' = drop (length pages) (faults db).
Proof.
  induction pages as [|page pages IH]; intros db c db' c' Hne H; [done|].
  simpl in H.
  destruct (server_execute (InsertOnConflictUpdate page) db c)
    as [[[e|] db1] c1] eqn:H1; [done|].
  apply server_execute_insert_session in H1 as (Hv & Hv1 & Hact & Hf).
  split; [done|]. destruct pages as [|page' pages].
  - simpl in H. injection H as <- <-. split; [apply Hv1|]. by split.
  - apply IH in H as (_ & Hst & Hact' & Hf'); [|done].
    split; [done|]. split; [done|]. rewrite Hf', Hf, drop_drop.
    f_equal; simpl; lia.
Qed.

Lemma take_S_drop {A} n (l : list A) : take (S n) l = take n l ++ take 1 (drop n l).
Proof.
  revert l. induction n as [|n IH]; intros [|x l]; try done.
  change (x :: take (S n) l = x :: (take n l ++ take 1 (drop n l))).
  by rewrite IH.
Qed.

(** The [try] block for a batch that is not empty succeeds exactly when
    the session is valid, nothing goes wrong at the round trips of the
    pages and of the commit, and the server accepts every page. *)
Lemma run_try_succeeds rows db c :
  rows <> [] ->
  (run_try rows db c).1.1 = None
  <-> valid_session db c
     /\ no_fault_for (S (length (paginate page_size rows))) db
     /\ Forall page_ok (paginate page_size rows).
Proof.
  intros Hne. pose proof (paginate_nonempty rows Hne) as Hpages.
  unfold run_try. generalize dependent (paginate page_size rows).
  intros pages Hpages. destruct (status c) eqn:Hst.
  2,3: split; [done|]; intros ((Hst' & _) & _); congruence.
  destruct (run_pages pages db c) as [[[e|] db1] c1] eqn:Hp.
  - simpl. split; [done|]. intros (Hv & Hn & Hok).
    pose proof (proj2 (run_pages_valid pages db c Hv)) as H.
    rewrite Hp in H. simpl in H. enough (Some e = None) by done. apply H.
    split; [|done]. unfold no_fault_for in *. rewrite take_S_drop in Hn.
    by apply Forall_app in Hn as [? _].
  - pose proof (run_pages_session pages db c db1 c1 Hpages Hp)
      as (Hv & Hst1 & (work & start & Htx) & Hf).
    pose proof (proj1 (run_pages_valid pages db c Hv)) as H.
    rewrite Hp in H. destruct (H eq_refl) as [Hn Hok].
    unfold server_commit. rewrite Hst1, Htx.
    assert (Hlast : (pop_fault db1).1 = NoFault
                    <-> Forall (fun f => f = NoFault)
                               (take 1 (drop (length pages) (faults db)))).
    { rewrite <- Hf. unfold pop_fault. destruct (faults db1) as [|f fs]; simpl.
      - split; [constructor|done].
      - rewrite take_0. split; [intros ->; by repeat constructor|].
        intros Hall. by inversion Hall. }
    unfold no_fault_for at 1. rewrite take_S_drop, Forall_app.
    rewrite <- Hlast. destruct (pop_fault db1) as [[] db2]; simpl; split;
      try done; try tauto.
    all: by intros (_ & (_ & [=]) & _).
Qed.

Lemma upsert_result_run conn rows w c :
  rows <> [] ->
  connections w !! conn = Some c ->
  (upsert_stock_data conn rows w).1 = Ok tt
  <-> (run_try rows (server w) c).1.1 = None.
Proof.
  intros Hne Hc.
  destruct (upsert_stock_data_run conn rows w c Hne Hc) as (evs & -> & _).
  simpl. unfold run_upsert.
  destruct (run_try rows (server w) c) as [[[e|] db1] c1]; simpl; [|done].
  by destruct (server_rollback db1 c1) as [[[e'|] db2] c2].
Qed.

(** X12. [upsert_stock_data] with rows to store returns normally exactly when
    the connection is open, its transaction has not failed, the relation
    exists for it, nothing goes wrong at the round trips to the server (one
    per page of 100 rows and one for the commit), and the server accepts
    every page: the keys of a page are distinct and every value is in the
    range of its column. *)
Theorem upsert_succeeds_exactly_when
  (conn : nat) (rows : list row) (w : world) (c : connection) :
  rows <> [] ->
  connections w !! conn = Some c ->
  (upsert_stock_data conn rows w).1 = Ok tt
  <-> valid_session (server w) c
     /\ no_fault_for (S (length (paginate page_size rows))) (server w)
     /\ Forall page_ok (paginate page_size rows).
Proof.
  intros Hne Hc. rewrite (upsert_result_run conn rows w c Hne Hc).
  by apply run_try_succeeds.
Qed.

(** [upsert_succeeds_exactly_when] at a batch of one row on a fresh
    connection. *)
Lemma upsert_succeeds_exactly_when_witness :
  (upsert_stock_data 0 [msft_row] (connected_world [])).1 = Ok tt.
Proof.
  refine (proj2 (upsert_succeeds_exactly_when 0 [msft_row] (connected_world [])
                   (mk_connection Open Idle) _ _) _).
  - discriminate.
  - reflexivity.
  - split; [|split].
    + split; [reflexivity|]. split; [discriminate|]. by eexists.
    + constructor.
    + constructor; [|constructor]. split; [|reflexivity].
      apply NoDup_singleton.
Defined.

(** ** The order of a batch *)

Lemma paginate_upto_length {A} (n fuel : nat) : forall l l' : list A,
  length l = length l' ->
  length (paginate_upto fuel n l) = length (paginate_upto fuel n l').
Proof.
  induction fuel as [|fuel IH]; intros [|x l] [|x' l'] H; try done.
  change (S (length (paginate_upto fuel n (drop n (x :: l))))
          = S (length (paginate_upto fuel n (drop n (x' :: l'))))).
  f_equal. apply IH. by rewrite !length_drop, H.
Qed.

Lemma paginate_length (rows rows' : list row) :
  length rows = length rows' ->
  length (paginate page_size rows) = length (paginate page_size rows').
Proof. intros H. unfold paginate. rewrite H. by apply paginate_upto_length. Qed.

(** With distinct keys, the row of a key is the last row for it. *)
Lemma latest_NoDup rows r :
  NoDup (row_key <$> rows) -> r ∈ rows -> latest (row_key r) rows = Some r.
Proof.
  induction rows as [|r0 rows IH]; intros Hnd Hin.
  - by apply elem_of_nil in Hin.
  - rewrite fmap_cons in Hnd. apply NoDup_cons in Hnd as [Hnotin Hnd].
    rewrite latest_cons. apply elem_of_cons in Hin as [->|Hin].
    + destruct (latest (row_key r0) rows) as [r1|] eqn:Hl.
      * apply latest_key in Hl as [Hk Hr]. exfalso. apply Hnotin.
        rewrite <- Hk. apply list_elem_of_fmap. by exists r1.
      * by rewrite decide_True.
    + by rewrite IH.
Qed.

Lemma latest_Permutation rows rows' k :
  rows ≡ₚ rows' -> NoDup (row_key <$> rows) -> latest k rows = latest k rows'.
Proof.
  intros Hp Hnd.
  assert (Hnd' : NoDup (row_key <$> rows')) by by rewrite <- Hp.
  destruct (latest k rows) as [r|] eqn:H1.
  - apply latest_key in H1 as [<- Hin]. symmetry.
    apply latest_NoDup; [done|]. by rewrite <- Hp.
  - destruct (latest k rows') as [r|] eqn:H2; [|done].
    apply latest_key in H2 as [<- Hin]. apply latest_None in H1.
    exfalso. apply H1. apply list_elem_of_fmap. exists r. by rewrite Hp.
Qed.

Lemma foldl_upsert_Permutation (now : Z) (t : table) (rows rows' : list row) :
  rows ≡ₚ rows' -> NoDup (row_key <$> rows) ->
  foldl (upsert_row now) t rows = foldl (upsert_row now) t rows'.
Proof.
  intros Hp Hnd. apply map_eq. intros k.
  by rewrite !foldl_upsert_lookup, (latest_Permutation _ _ _ Hp Hnd).
Qed.

(** The pages of rows with distinct keys are accepted exactly when every
    row can be stored. *)
Lemma pages_ok (pages : list (list row)) :
  NoDup (row_key <$> concat pages) ->
  Forall page_ok pages <-> forallb storable (concat pages) = true.
Proof.
  induction pages as [|p ps IH]; simpl.
  - intros _. split; [done|constructor].
  - rewrite fmap_app, NoDup_app. intros (Hp & _ & Hps).
    rewrite Forall_cons, forallb_app, andb_true_iff, (IH Hps).
    unfold page_ok. tauto.
Qed.

Lemma storable_Permutation rows rows' :
  rows ≡ₚ rows' -> forallb storable rows = forallb storable rows'.
Proof.
  induction 1 as [|x l l' _ IH|x y l|l l' l'' _ IH1 _ IH2]; simpl.
  - done.
  - by rewrite IH.
  - by destruct (storable x), (storable y).
  - by rewrite IH1.
Qed.

(** What [upsert_stock_data] leaves in the committed relation. *)
Lemma run_upsert_relation rows db c :
  rows <> [] ->
  relation (run_upsert rows db c).1.2
  = match (run_try rows db c).1.1 with
    | None => Some (foldl (upsert_row (txn_start db c))
                          (or_empty (visible_relation db c)) rows)
    | Some _ => relation db
    end.
Proof.
  intros Hne. unfold run_upsert.
  destruct (run_try rows db c) as [[[e|] db1] c1] eqn:Ht; simpl.
  - apply run_try_failed in Ht.
    pose proof (server_rollback_relation db1 c1) as Hrel.
    destruct (server_rollback db1 c1) as [[[e'|] db2] c2]; simpl in *; congruence.
  - apply run_try_ok in Ht as (_ & t0 & Hvis & Hrel & _); [|done].
    by rewrite Hvis.
Qed.

(** X13. The order of the rows of a batch with distinct keys does not matter
    to what is stored: two batches with the same rows in different orders
    both succeed or both fail, and leave the same committed relation. *)
Theorem upsert_order_irrelevant
  (conn : nat) (rows rows' : list row) (w : world) (c : connection) :
  rows ≡ₚ rows' ->
  NoDup (row_key <$> rows) ->
  connections w !! conn = Some c ->
  ((upsert_stock_data conn rows w).1 = Ok tt
   <-> (upsert_stock_data conn rows' w).1 = Ok tt)
  /\ relation (server (upsert_stock_data conn rows w).2)
     = relation (server (upsert_stock_data conn rows' w).2).
Proof.
  intros Hp Hnd Hc.
  destruct (decide (rows = [])) as [->|Hne].
  { apply Permutation_nil_l in Hp as ->. done. }
  assert (Hne' : rows' <> []).
  { intros ->. by apply Permutation_nil_r in Hp. }
  assert (Hnd' : NoDup (row_key <$> rows')) by by rewrite <- Hp.
  assert (Hsame : (run_try rows (server w) c).1.1 = None
                  <-> (run_try rows' (server w) c).1.1 = None).
  { rewrite !run_try_succeeds by done.
    rewrite (paginate_length rows rows') by by apply Permutation_length.
    rewrite !pages_ok by by rewrite paginate_concat.
    by rewrite !paginate_concat, (storable_Permutation _ _ Hp). }
  split.
  - by rewrite !(upsert_result_run conn _ w c) by done.
  - destruct (upsert_stock_data_run conn rows w c Hne Hc) as (evs & -> & _).
    destruct (upsert_stock_data_run conn rows' w c Hne' Hc) as (evs' & -> & _).
    simpl. rewrite !run_upsert_relation by done.
    destruct (run_try rows (server w) c).1.1 as [e|] eqn:H1,
             (run_try rows' (server w) c).1.1 as [e'|] eqn:H2; try done.
    + by pose proof (proj2 Hsame eq_refl).
    + by pose proof (proj1 Hsame eq_refl).
    + f_equal. by apply foldl_upsert_Permutation.
Qed.

(** [upsert_order_irrelevant] at a batch of two rows. *)
Lemma upsert_order_irrelevant_witness :
  relation (server (upsert_stock_data 0 [msft_row; next_row] (connected_world [])).2)
  = relation (server (upsert_stock_data 0 [next_row; msft_row] (connected_world [])).2).
Proof.
  refine (proj2 (upsert_order_irrelevant 0 [msft_row; next_row] [next_row; msft_row]
                   (connected_world []) (mk_connection Open Idle) _ _ _)).
  - apply perm_swap.
  - apply NoDup_cons. split; [|apply NoDup_singleton].
    rewrite list_elem_of_singleton. discriminate.
  - reflexivity.
Defined.

(** ** The connection *)

Lemma get_env_var_bind {B} name default required (k : option string -> M B) w :
  (get_env_var name default required ≫= k) w
  = if required && falsy (env_value w name default)
    then (Raise (RuntimeError (MissingEnvVar name)), w)
    else k (env_value w name default) w.
Proof.
  unfold get_env_var, mbind, M_bind, os_getenv, env_value. simpl.
  by destruct (_ && _).
Qed.

Lemma falsy_env_value w name :
  falsy (env_value w name None) = falsy (environ w !! name).
Proof. unfold env_value. by destruct (environ w !! name). Qed.

Lemma get_db_connection_run w :
  get_db_connection w
  = match first_missing w with
    | Some name => (Raise (RuntimeError (MissingEnvVar name)), w)
    | None => connect_result w
    end.
Proof.
  unfold get_db_connection, first_missing, db_variables. simpl List.find.
  rewrite get_env_var_bind, falsy_env_value. simpl andb.
  destruct (falsy (environ w !! "POSTGRES_USER")); [done|].
  rewrite get_env_var_bind, falsy_env_value. simpl andb.
  destruct (falsy (environ w !! "POSTGRES_PASSWORD")); [done|].
  rewrite get_env_var_bind, falsy_env_value. simpl andb.
  destruct (falsy (environ w !! "POSTGRES_DB")); [done|].
  rewrite !get_env_var_bind. simpl andb. cbv iota.
  unfold try_except, psycopg2_connect, connect_result.
  by destruct (pop_fault (server w)) as [[] db].
Qed.

Lemma new_events_trace w w' evs :
  trace w' = trace w ++ evs -> new_events w w' = evs.
Proof. intros H. unfold new_events. by rewrite H, drop_app_length. Qed.

(** X14. [get_db_connection] looks up the user, the password and the database
    name, in that order, and raises the missing-configuration error for
    the first that is not configured, with no effect at all; the host and
    the port are never required.  With the three configured it contacts
    the server once: it returns the handle of a new connection object,
    open, behind the connections there were, or it logs the failure once
    and raises [OperationalError], and adds no connection.  In no case
    does the committed relation change. *)
Theorem get_db_connection_outcomes (w : world) (r : result nat) (w' : world) :
  get_db_connection w = (r, w') ->
  relation (server w') = relation (server w)
  /\ match r with
     | Ok conn =>
         first_missing w = None
         /\ (pop_fault (server w)).1 = NoFault
         /\ conn = length (connections w)
         /\ connections w' = connections w ++ [mk_connection Open Idle]
         /\ new_events w w' = [DbConnect conn]
     | Raise e =>
         connections w' = connections w
         /\ ((exists name,
                 first_missing w = Some name
                 /\ e = RuntimeError (MissingEnvVar name) /\ w' = w)
             \/ (first_missing w = None
                 /\ (pop_fault (server w)).1 <> NoFault
                 /\ e = Psycopg2Error OperationalError None
                 /\ new_events w w'
                    = [Log ERROR "Failed to connect to Postgres: %s" [ArgExn e]]))
     end.
Proof.
  rewrite get_db_connection_run. destruct (first_missing w) as [name|].
  - intros [= <- <-]. split; [done|]. split; [done|]. left. by exists name.
  - unfold connect_result. pose proof (pop_fault_relation (server w)) as Hrel.
    destruct (pop_fault (server w)) as [[] db]; simpl in *; intros [= <- <-];
      (split; [done|]); simpl.
    + repeat split; try done. by apply new_events_trace.
    + split; [done|]. right. repeat split; try done.
      by apply new_events_trace.
    + split; [done|]. right. repeat split; try done.
      by apply new_events_trace.
Qed.

(** [get_db_connection_outcomes] at a server that accepts the
    connection. *)
Lemma get_db_connection_outcomes_witness :
  relation (server (connected_world [NoFault]))
  = relation (server (get_db_connection (connected_world [NoFault])).2)
  /\ (get_db_connection (connected_world [NoFault])).1 = Ok 1%nat.
Proof.
  pose proof (get_db_connection_outcomes (connected_world [NoFault]) (Ok 1%nat)
                (get_db_connection (connected_world [NoFault])).2) as H.
  destruct H as [H _]; [vm_compute; reflexivity|].
  split; [by rewrite H|]. vm_compute. reflexivity.
Defined.

(** ** The pipeline *)

Lemma fetch_ok_inv symbol w v w1 :
  fetch_stock_data symbol w = (Ok v, w1) ->
  exists key,
    environ w !! "ALPHAVANTAGE_API_KEY" = Some key /\ key <> EmptyString
    /\ (exists st body,
           remote w (api_request symbol (Some key))
           = HttpResponse st (Some (JObj body))
           /\ success_status st
           /\ assoc "Error Message" body = None
           /\ assoc "Time Series (Daily)" body = Some v)
    /\ w1 = requested symbol key w.
Proof.
  destruct (falsy (environ w !! "ALPHAVANTAGE_API_KEY")) eqn:Hf.
  { by rewrite fetch_requires_api_key. }
  destruct (environ w !! "ALPHAVANTAGE_API_KEY") as [key|] eqn:Hkey; [|done].
  simpl in Hf. apply String.eqb_neq in Hf. rename Hf into Hne.
  fetch_request Hkey Hne.
  destruct (remote w _) as [| |st body] eqn:Hr; simpl; try done.
  unfold raise_for_status. simpl.
  destruct ((400 <=? st) && (st <? 600)) eqn:Hst; simpl; [done|].
  apply success_status_test in Hst.
  destruct body as [data|]; simpl; [|done].
  destruct data as [| | | | |elems|items]; simpl; try done.
  - destruct (is_substring _ _); simpl; [done|].
    by destruct (is_substring _ _).
  - destruct (existsb _ elems); simpl; [done|].
    by destruct (existsb _ elems).
  - destruct (assoc "Error Message" items) as [x|] eqn:He; simpl; [done|].
    destruct (assoc "Time Series (Daily)" items) as [x|] eqn:Hs; simpl; [|done].
    intros [= -> <-]. exists key. split; [done|]. split; [done|].
    split; [|done]. by exists st, items.
Qed.

Lemma conn_close_run conn w c :
  connections w !! conn = Some c ->
  conn_close conn w
  = (Ok tt, conn_update conn (server w) (mk_connection Closed Idle) [DbClose conn] w).
Proof. intros H. unfold conn_close. by rewrite (conn_call_spec _ _ _ _ _ H). Qed.

(** The schema and upsert steps of [main] on a connection that has just
    been opened. *)
Lemma store_body_relation conn rows w r w1 :
  connections w !! conn = Some (mk_connection Open Idle) ->
  (ensure_table_exists conn;; upsert_stock_data conn rows) w = (r, w1) ->
  is_Some (connections w1 !! conn)
  /\ relation (server w1)
     = match r with
       | Ok _ => stored (clock (server w)) (relation (server w)) rows
       | Raise _ => relation (server w)
       end.
Proof.
  intros Hc. unfold mbind, M_bind.
  destruct (ensure_table_exists conn w) as [re w0] eqn:He.
  assert (H0 : relation (server w0) = relation (server w)
               /\ match re with
                  | Ok _ =>
                      connections w0 !! conn
                      = Some (mk_connection Open
                                (Active (Some (or_empty (relation (server w))))
                                        (clock (server w))))
                  | Raise _ => is_Some (connections w0 !! conn)
                  end).
  { revert He. unfold ensure_table_exists, mbind, M_bind, conn_cursor.
    rewrite Hc. unfold cur_execute. rewrite (conn_call_spec _ _ _ _ _ Hc).
    pose proof (server_execute_relation CreateTableIfNotExists (server w)
                  (mk_connection Open Idle)) as Hrel.
    destruct (server_execute _ _ _) as [[[e|] db1] c1] eqn:Hex; simpl in *;
      intros [= <- <-]; simpl; (split; [done|]).
    - rewrite list_lookup_insert_eq by (by eapply lookup_lt_Some). by eexists.
    - apply server_execute_create_ok in Hex as [_ ->].
      apply list_lookup_insert_eq. by eapply lookup_lt_Some. }
  destruct H0 as [Hrel H0]. destruct re as [[]|e].
  2: { intros [= <- <-]. done. }
  destruct rows as [|r0 rows].
  - rewrite upsert_empty. intros [= <- <-]. simpl. split; [by eexists|done].
  - intros Hu. split.
    + eapply upsert_stock_data_session in Hu as (db & c' & evs & ->); [|done].
      eexists. by eapply conn_update_lookup.
    + destruct r as [[]|e].
      * eapply upsert_committed in Hu as (t0 & Hvis & -> & _); [|done|done].
        simpl in Hvis. injection Hvis as <-. done.
      * eapply upsert_outcomes in Hu as [[? _]|Hu]; [done|congruence|done|done].
Qed.

(** The [try ... finally] of [main] on a connection that has just been
    opened. *)
Lemma store_block_relation conn rows w r w' :
  connections w !! conn = Some (mk_connection Open Idle) ->
  try_finally (ensure_table_exists conn;; upsert_stock_data conn rows)
              (conn_close conn) w = (r, w') ->
  relation (server w')
  = match r with
    | Ok _ => stored (clock (server w)) (relation (server w)) rows
    | Raise _ => relation (server w)
    end.
Proof.
  intros Hc. unfold try_finally.
  destruct ((ensure_table_exists conn;; upsert_stock_data conn rows) w)
    as [r1 w1] eqn:Hbody.
  apply store_body_relation in Hbody as [[c1 Hc1] Hrel]; [|done].
  rewrite (conn_close_run _ _ _ Hc1). intros [= <- <-]. done.
Qed.

(** The stages of the [try] block of [main]: the first that raises ends
    the block with its exception. *)
Lemma main_try_stages sym w r w' :
  main_try sym w = (r, w') ->
  match fetch_stock_data sym w with
  | (Raise e, w1) => r = Raise e /\ w' = w1
  | (Ok series, w1) =>
      match parse_time_series sym series w1 with
      | (Raise e, w2) => r = Raise e /\ w' = w2
      | (Ok rows, w2) =>
          match get_db_connection w2 with
          | (Raise e, w3) => r = Raise e /\ w' = w3
          | (Ok conn, w3) =>
              match store_block conn rows w3 with
              | (Raise e, w4) => r = Raise e /\ w' = w4
              | (Ok _, w4) =>
                  r = Ok tt
                  /\ w' = emit (Log INFO
                                  "Pipeline completed successfully for symbol=%s"
                                  [ArgStr sym]) w4
              end
          end
      end
  end.
Proof.
  unfold main_try, mbind, M_bind, store_block.
  destruct (fetch_stock_data sym w) as [[series|e] w1]; [|by intros [= <- <-]].
  destruct (parse_time_series sym series w1) as [[rows|e] w2]; [|by intros [= <- <-]].
  destruct (get_db_connection w2) as [[conn|e] w3]; [|by intros [= <- <-]].
  destruct (try_finally _ _ w3) as [[[]|e] w4]; by intros [= <- <-].
Qed.

Lemma main_unfold w :
  main w
  = match main_try (run_symbol w) (emit (start_record w) w) with
    | (Ok a, w1) => (Ok a, w1)
    | (Raise e, w1) => (Raise e, emit (Log ERROR "Pipeline failed: %s" [ArgExn e]) w1)
    end.
Proof.
  unfold main. rewrite get_env_var_bind. simpl andb. cbv iota.
  unfold start_record, env_value, run_symbol.
  destruct (environ w !! "STOCK_SYMBOL");
    unfold mbind, M_bind, logging, effect, try_except, raise;
    by destruct (main_try _ _) as [[[]|e] w1].
Qed.

Lemma parse_ok_inv sym series w rows w' :
  parse_time_series sym series w = (Ok rows, w') ->
  exists items,
    series = JObj items
    /\ rows = omap (kept_row sym) items
    /\ w' = emit_all (flat_map (skip_warning sym) items) w.
Proof.
  destruct series as [| | | | | |items]; try done.
  rewrite parse_time_series_for_each. intros H. exists items.
  split; [done|]. split.
  - by apply for_each_parse_rows in H.
  - by apply for_each_parse_world in H.
Qed.

(** What the [try] block of [main] leaves in the committed relation. *)
Lemma main_try_relation sym w r w' :
  main_try sym w = (r, w') ->
  match r with
  | Raise _ => relation (server w') = relation (server w)
  | Ok _ =>
      exists key items,
        environ w !! "ALPHAVANTAGE_API_KEY" = Some key /\ key <> EmptyString
        /\ api_series w sym key items
        /\ first_missing w = None
        /\ relation (server w')
           = stored (clock (server w)) (relation (server w))
                    (omap (kept_row sym) items)
  end.
Proof.
  intros H. apply main_try_stages in H.
  destruct (fetch_stock_data sym w) as [[series|e] w1] eqn:Hf.
  2: { destruct H as [-> ->].
       by destruct (quiet_fetch_stock_data _ _ _ _ Hf) as [evs ->]. }
  apply fetch_ok_inv in Hf as (key & Hkey & Hne & Hapi & ->).
  destruct (parse_time_series sym series _) as [[rows|e] w2] eqn:Hp.
  2: { destruct H as [-> ->].
       by destruct (quiet_parse_time_series _ _ _ _ _ Hp) as [evs ->]. }
  apply parse_ok_inv in Hp as (items & -> & -> & ->).
  revert H. rewrite get_db_connection_run.
  change (first_missing (emit_all _ _)) with (first_missing w).
  destruct (first_missing w) as [name|] eqn:Hm.
  { by intros [-> ->]. }
  unfold connect_result. simpl server.
  pose proof (pop_fault_relation (server w)) as Hrel.
  pose proof (pop_fault_clock (server w)) as Hclk.
  destruct (pop_fault (server w)) as [[] db]; simpl in Hrel, Hclk;
    simpl fst; simpl snd; cbv beta iota; try by intros [-> ->].
  match goal with
  | |- context [store_block ?c ?rs ?w3] =>
      destruct (store_block c rs w3) as [rb w4] eqn:Hb
  end.
  apply store_block_relation in Hb; [|simpl; by apply list_lookup_middle].
  simpl in Hb. rewrite Hrel, Hclk in Hb.
  destruct rb as [[]|e]; intros [-> ->]; [|done].
  exists key, items. by repeat split.
Qed.

(** A run changes neither the process environment nor the remote API. *)
Lemma main_try_frame sym w r w' :
  main_try sym w = (r, w') -> environ w' = environ w /\ remote w' = remote w.
Proof.
  intros H. apply main_try_stages in H.
  destruct (fetch_stock_data sym w) as [r1 w1] eqn:Hf.
  destruct (quiet_fetch_stock_data _ _ _ _ Hf) as [evs1 ->].
  destruct r1 as [series|e]; [|by destruct H as [-> ->]].
  destruct (parse_time_series sym series _) as [r2 w2] eqn:Hp.
  destruct (quiet_parse_time_series _ _ _ _ _ Hp) as [evs2 ->].
  destruct r2 as [rows|e]; [|by destruct H as [-> ->]].
  revert H. rewrite get_db_connection_run.
  destruct (first_missing _) as [name|].
  { by intros [-> ->]. }
  unfold connect_result.
  destruct (pop_fault _) as [[] db]; simpl fst; simpl snd; cbv beta iota;
    try by intros [-> ->].
  match goal with
  | |- context [store_block ?c ?rs ?w3] =>
      destruct (store_block c rs w3) as [rb w4] eqn:Hb
  end.
  eapply store_block_closes in Hb as (db' & evs & ->);
    [|simpl; by apply list_lookup_middle].
  by destruct rb as [[]|e]; intros [-> ->].
Qed.

Lemma main_relation w r w' :
  main w = (r, w') ->
  match r with
  | Raise _ => relation (server w') = relation (server w)
  | Ok _ =>
      exists key items,
        environ w !! "ALPHAVANTAGE_API_KEY" = Some key /\ key <> EmptyString
        /\ api_series w (run_symbol w) key items
        /\ first_missing w = None
        /\ relation (server w')
           = stored (clock (server w)) (relation (server w))
                    (omap (kept_row (run_symbol w)) items)
  end.
Proof.
  rewrite main_unfold.
  destruct (main_try _ _) as [[[]|e] w1] eqn:Ht;
    apply main_try_relation in Ht; intros [= <- <-]; done.
Qed.

Lemma main_frame w r w' :
  main w = (r, w') -> environ w' = environ w /\ remote w' = remote w.
Proof.
  rewrite main_unfold.
  destruct (main_try _ _) as [[[]|e] w1] eqn:Ht;
    apply main_try_frame in Ht; intros [= <- <-]; done.
Qed.

(** X15. A run of [main] that raises has committed nothing: the relation is as
    it was before the run, whichever stage failed.  In particular a
    relation that did not exist has not been created. *)
Theorem main_failure_commits_nothing (w : world) (e : exn) (w' : world) :
  main w = (Raise e, w') -> relation (server w') = relation (server w).
Proof. intros H. by apply main_relation in H. Qed.

(** [main_failure_commits_nothing] at a run whose upsert the server
    refuses. *)
Lemma main_failure_commits_nothing_witness :
  relation (server (main failing_store_world).2) = None.
Proof.
  apply (main_failure_commits_nothing failing_store_world
           (Psycopg2Error DatabaseError None)).
  vm_compute. reflexivity.
Defined.

(** X16. When [main] returns, the API has answered the request for the symbol
    of the run, made with the configured key, with a time series, and the
    committed relation is the relation before the run with the row of
    every entry that converts applied to it, in the order of the entries,
    with the time of the run as [last_updated].  When no entry converts
    the relation is as before the run: a relation that did not exist has
    not been created. *)
Theorem main_success_state (w w' : world) :
  main w = (Ok tt, w') ->
  exists key items,
    environ w !! "ALPHAVANTAGE_API_KEY" = Some key
    /\ api_series w (run_symbol w) key items
    /\ relation (server w')
       = stored (clock (server w)) (relation (server w))
                (omap (kept_row (run_symbol w)) items).
Proof.
  intros H. apply main_relation in H as (key & items & ? & _ & ? & _ & ?).
  by exists key, items.
Qed.

(** [main_success_state] at a run that stores the example entry. *)
Lemma main_success_state_witness :
  exists key items,
    environ example_world !! "ALPHAVANTAGE_API_KEY" = Some key
    /\ api_series example_world (run_symbol example_world) key items
    /\ relation (server (main example_world).2)
       = stored (clock (server example_world)) (relation (server example_world))
                (omap (kept_row (run_symbol example_world)) items).
Proof.
  apply (main_success_state example_world). vm_compute. reflexivity.
Defined.

Lemma kept_row_symbol sym (items : list (string * json)) r :
  r ∈ omap (kept_row sym) items -> symbol r = sym.
Proof.
  intros H. apply list_elem_of_omap in H as (item & _ & H).
  unfold kept_row in H.
  destruct (parse_entry sym item.1 item.2) as [r'|] eqn:Hp; [|done].
  injection H as ->. by apply parse_entry_fields in Hp as [? _].
Qed.

(** X17. A run of [main] never removes a record: a key the relation has before
    the run, it has after the run, however the run ends.  The record of a
    key of another symbol than that of the run is as it was, and so is
    every record when the run does not return normally. *)
Theorem main_never_deletes
  (w : world) (r : result unit) (w' : world)
  (t : table) (k : key) (p : price_record) :
  main w = (r, w') ->
  relation (server w) = Some t ->
  t !! k = Some p ->
  exists t' p',
    relation (server w') = Some t'
    /\ t' !! k = Some p'
    /\ (k.1 <> run_symbol w -> p' = p)
    /\ (r <> Ok tt -> p' = p).
Proof.
  intros H Ht Hk. apply main_relation in H. destruct r as [[]|e].
  2: { exists t, p. rewrite H. done. }
  destruct H as (key & items & _ & _ & _ & _ & ->). rewrite Ht.
  destruct (omap _ items) as [|r0 rows] eqn:Hrows.
  { by exists t, p. }
  unfold stored. rewrite <- Hrows. simpl or_empty.
  eexists. pose proof (foldl_upsert_lookup (clock (server w))
                 (omap (kept_row (run_symbol w)) items) t k) as Hl.
  destruct (latest k _) as [r1|] eqn:Hlast.
  - exists (record_of (clock (server w)) r1). split; [done|]. split; [done|].
    split; [|done]. intros Hsym. apply latest_key in Hlast as [<- Hin].
    apply kept_row_symbol in Hin. done.
  - exists p. split; [done|]. split; [by rewrite Hl|]. done.
Qed.

(** [main_never_deletes] at a run that stores the example entry in a
    relation that holds a record of another symbol. *)
Lemma main_never_deletes_witness :
  exists t' p',
    relation
      (server (main (mk_world full_env (remote example_world)
                       (mk_database
                          (Some {[ ("AAPL"%string, PyDate.mk_date 2024 1 2)
                                   := record_of 3 msft_row ]}) 7 [])
                       [] [])).2)
    = Some t'
    /\ t' !! ("AAPL"%string, PyDate.mk_date 2024 1 2) = Some p'
    /\ (("AAPL"%string, PyDate.mk_date 2024 1 2).1
        <> run_symbol (mk_world full_env (remote example_world)
                         (mk_database
                            (Some {[ ("AAPL"%string, PyDate.mk_date 2024 1 2)
                                     := record_of 3 msft_row ]}) 7 [])
                         [] [])
        -> p' = record_of 3 msft_row)
    /\ (Ok tt <> Ok tt -> p' = record_of 3 msft_row).
Proof.
  eapply (main_never_deletes _ (Ok tt)).
  - vm_compute. reflexivity.
  - reflexivity.
  - apply lookup_singleton_eq.
Defined.

Lemma stored_twice now now' rel rows :
  value_columns (stored now' (stored now rel rows) rows)
  = value_columns (stored now rel rows).
Proof.
  destruct rows as [|r0 rows]; [done|]. unfold stored.
  generalize (r0 :: rows). intros rs. cbn [or_empty value_columns].
  f_equal. apply map_eq. intros k.
  rewrite !lookup_fmap, !foldl_upsert_lookup. by destruct (latest k rs).
Qed.

(** X18. Two runs of [main] that both return, the second in a world with the
    environment of the first, in which the API answers as it answered the
    first, and with the relation the first has left: the second run
    changes no key and no value column of the relation. *)
Theorem main_idempotent (w w1 v v1 : world) :
  main w = (Ok tt, w1) ->
  environ v = environ w ->
  remote v = remote w ->
  relation (server v) = relation (server w1) ->
  main v = (Ok tt, v1) ->
  value_columns (relation (server v1)) = value_columns (relation (server v)).
Proof.
  intros H1 Henv Hrem Hrel H2.
  apply main_relation in H1 as (key & items & Hkey & _ & Hapi & _ & Hrel1).
  apply main_relation in H2 as (key' & items' & Hkey' & _ & Hapi' & _ & Hrel2).
  assert (Hsym : run_symbol v = run_symbol w) by (unfold run_symbol; by rewrite Henv).
  rewrite Hsym in *. rewrite Henv, Hkey in Hkey'. injection Hkey' as <-.
  destruct Hapi as (st & body & Hr & _ & _ & Hs).
  destruct Hapi' as (st' & body' & Hr' & _ & _ & Hs').
  rewrite Hrem, Hr in Hr'. injection Hr' as <- <-.
  rewrite Hs in Hs'. injection Hs' as <-.
  rewrite Hrel2, Hrel, Hrel1. apply stored_twice.
Qed.

(** [main_idempotent] at two runs in a row that store the example
    entry. *)
Lemma main_idempotent_witness :
  value_columns (relation (server (main (main example_world).2).2))
  = value_columns (relation (server (main example_world).2)).
Proof.
  apply (main_idempotent example_world (main example_world).2);
    vm_compute; reflexivity.
Defined.

Lemma trace_extends_trans w1 w2 w3 :
  (exists evs, trace w2 = trace w1 ++ evs) ->
  (exists evs, trace w3 = trace w2 ++ evs) ->
  exists evs, trace w3 = trace w1 ++ evs.
Proof.
  intros [evs1 H1] [evs2 H2]. exists (evs1 ++ evs2).
  by rewrite H2, H1, app_assoc.
Qed.

Lemma quiet_trace {A} (m : M A) w r w' :
  quiet m -> m w = (r, w') -> exists evs, trace w' = trace w ++ evs.
Proof. intros Hq H. destruct (Hq _ _ _ H) as [evs ->]. by exists evs. Qed.

(** The [try] block of [main] only adds to the trace, and when it returns
    the last record is that of the completion. *)
Lemma main_try_trace sym w r w' :
  main_try sym w = (r, w') ->
  exists evs,
    trace w'
    = trace w ++ evs
        ++ match r with
           | Ok _ => [Log INFO "Pipeline completed successfully for symbol=%s"
                          [ArgStr sym]]
           | Raise _ => []
           end.
Proof.
  intros H. apply main_try_stages in H.
  assert (Hraise : forall e w1,
             (exists evs, trace w1 = trace w ++ evs) ->
             r = Raise e /\ w' = w1 ->
             exists evs,
               trace w'
               = trace w ++ evs
                   ++ match r with
                      | Ok _ => [Log INFO
                                     "Pipeline completed successfully for symbol=%s"
                                     [ArgStr sym]]
                      | Raise _ => []
                      end).
  { intros e w1 [evs Hw1] [-> ->]. exists evs. by rewrite app_nil_r. }
  destruct (fetch_stock_data sym w) as [r1 w1] eqn:Hf.
  pose proof (quiet_trace _ _ _ _ (quiet_fetch_stock_data sym) Hf) as H1.
  destruct r1 as [series|e]; [|by eapply Hraise].
  destruct (parse_time_series sym series w1) as [r2 w2] eqn:Hp.
  pose proof (trace_extends_trans _ _ _ H1
                (quiet_trace _ _ _ _ (quiet_parse_time_series sym series) Hp)) as H2.
  destruct r2 as [rows|e]; [|by eapply Hraise].
  destruct (get_db_connection w2) as [r3 w3] eqn:Hg.
  assert (H3 : exists evs, trace w3 = trace w ++ evs).
  { apply (trace_extends_trans _ _ _ H2).
    apply get_db_connection_cases in Hg as [(db & _ & ->)|(e & _ & _ & Ht)];
      [by eexists|done]. }
  destruct r3 as [conn|e]; [|by eapply Hraise].
  assert (Hc : connections w3 !! conn = Some (mk_connection Open Idle)).
  { apply get_db_connection_cases in Hg as [(db & [= ->] & ->)|(e & ? & _)];
      [|done]. simpl. by apply list_lookup_middle. }
  destruct (store_block conn rows w3) as [r4 w4] eqn:Hb.
  assert (H4 : exists evs, trace w4 = trace w ++ evs).
  { apply (trace_extends_trans _ _ _ H3).
    eapply store_block_closes in Hb as (db' & evs & ->); [|done]. by eexists. }
  destruct r4 as [[]|e]; [|by eapply Hraise].
  destruct H as [-> ->]. destruct H4 as [evs H4]. exists evs.
  simpl. by rewrite H4, app_assoc.
Qed.

Lemma main_trace w r w' :
  main w = (r, w') ->
  exists evs, trace w' = trace w ++ start_record w :: evs ++ [final_record w r].
Proof.
  rewrite main_unfold.
  destruct (main_try _ _) as [r1 w1] eqn:Ht.
  apply main_try_trace in Ht as [evs Ht]. simpl in Ht.
  destruct r1 as [[]|e]; intros [= <- <-]; exists evs.
  - by rewrite Ht, <- app_assoc.
  - simpl. rewrite Ht, app_nil_r, <- !app_assoc. done.
Qed.



Ltac some_logs :=
  first [by (eexists [_]; split) | by (exists []; rewrite emit_all_nil)].

(** With the credential configured, [fetch_stock_data] logs and sends its
    request, and then only writes log records. *)
Lemma fetch_requested symbol key w r w' :
  environ w !! "ALPHAVANTAGE_API_KEY" = Some key -> key <> EmptyString ->
  fetch_stock_data symbol w = (r, w') ->
  exists logs,
    w' = emit_all logs (requested symbol key w) /\ forallb is_log logs = true.
Proof.
  intros Hkey Hne. fetch_request Hkey Hne.
  destruct (remote w _) as [| |st body]; simpl.
  1,2: intros [= <- <-]; some_logs.
  unfold raise_for_status. simpl.
  destruct ((400 <=? st) && (st <? 600)); simpl.
  { intros [= <- <-]. some_logs. }
  destruct body as [data|]; simpl.
  2: { intros [= <- <-]. some_logs. }
  destruct (py_in "Error Message" data) as [[]|e1] eqn:H1; simpl.
  - destruct (subscript data "Error Message") as [v|e2] eqn:H2; simpl.
    + intros [= <- <-]. some_logs.
    + destruct data; simpl in H2; try discriminate;
        try (injection H2 as <-; simpl; intros [= <- <-]; some_logs).
      destruct (assoc _ items); [discriminate|]. injection H2 as <-. simpl.
      intros [= <- <-]. some_logs.
  - destruct (py_in "Time Series (Daily)" data) as [[]|e1'] eqn:H1'; simpl.
    + destruct (subscript data "Time Series (Daily)") as [v|e2] eqn:H2; simpl.
      * intros [= <- <-]. some_logs.
      * destruct data; simpl in H2; try discriminate;
          try (injection H2 as <-; simpl; intros [= <- <-]; some_logs).
        destruct (assoc _ items); [discriminate|]. injection H2 as <-. simpl.
        intros [= <- <-]. some_logs.
    + intros [= <- <-]. some_logs.
    + destruct data; simpl in H1'; try discriminate; injection H1' as <-; simpl;
        intros [= <- <-]; some_logs.
  - destruct data; simpl in H1; try discriminate; injection H1 as <-; simpl;
      intros [= <- <-]; some_logs.
Qed.

Lemma fetch_ok symbol key w items :
  environ w !! "ALPHAVANTAGE_API_KEY" = Some key -> key <> EmptyString ->
  api_series w symbol key items ->
  fetch_stock_data symbol w = (Ok (JObj items), requested symbol key w).
Proof.
  intros Hkey Hne (st & body & Hr & Hst & He & Hs). fetch_request Hkey Hne.
  rewrite Hr. simpl. unfold raise_for_status. simpl.
  apply success_status_test in Hst. rewrite Hst. simpl.
  rewrite He. simpl. by rewrite Hs.
Qed.





(** ** When a run succeeds *)

(** The loop of [parse_time_series] ends normally exactly when it gets
    past every entry. *)
Lemma for_each_parse_returns sym items : forall acc w,
  (exists rows w', for_each (parse_step sym) items acc w = (Ok rows, w'))
  <-> Forall (passable sym) items.
Proof.
  induction items as [|item items IH]; intros acc w.
  - split; [constructor|]. intros _. by eexists _, _.
  - rewrite for_each_cons, Forall_cons. unfold passable at 1.
    destruct (parse_entry sym item.1 item.2) as [r|e] eqn:He.
    + rewrite (parse_step_ok _ _ _ _ _ He), IH. tauto.
    + destruct (is_KeyError e || is_ValueError e) eqn:Hc.
      * rewrite (parse_step_skip _ _ _ _ _ He Hc), IH. tauto.
      * rewrite (parse_step_fatal _ _ _ _ _ He Hc). split.
        -- by intros (? & ? & ?).
        -- by intros [? _].
Qed.

Lemma parse_returns sym items w :
  Forall (passable sym) items ->
  parse_time_series sym (JObj items) w
  = (Ok (omap (kept_row sym) items),
     emit_all (flat_map (skip_warning sym) items) w).
Proof.
  intros H. apply (for_each_parse_returns sym items [] w) in H as (rows & w' & H).
  rewrite parse_time_series_for_each, H.
  by rewrite (for_each_parse_rows _ _ _ _ _ _ H), (for_each_parse_world _ _ _ _ _ _ H).
Qed.

(** The [CREATE TABLE] on a connection that has just been opened. *)
Lemma server_execute_create_idle db :
  (server_execute CreateTableIfNotExists db (mk_connection Open Idle)).1.1 = None
  <-> (pop_fault db).1 = NoFault.
Proof.
  unfold server_execute. simpl. by destruct (pop_fault db) as [[] db1].
Qed.

Lemma ensure_table_exists_run conn w :
  connections w !! conn = Some (mk_connection Open Idle) ->
  ensure_table_exists conn w
  = (db_result (server_execute CreateTableIfNotExists (server w)
                               (mk_connection Open Idle)).1.1,
     conn_update conn
       (server_execute CreateTableIfNotExists (server w)
                       (mk_connection Open Idle)).1.2
       (server_execute CreateTableIfNotExists (server w)
                       (mk_connection Open Idle)).2
       [DbExecute conn CreateTableIfNotExists] w).
Proof.
  intros Hc. unfold ensure_table_exists, mbind, M_bind, conn_cursor.
  rewrite Hc. unfold cur_execute. by rewrite (conn_call_spec _ _ _ _ _ Hc).
Qed.

(** The [try ... finally] of [main] on a connection that has just been
    opened returns exactly when nothing goes wrong at its round trips and
    the server accepts every page. *)
Lemma store_block_succeeds conn rows w :
  connections w !! conn = Some (mk_connection Open Idle) ->
  (store_block conn rows w).1 = Ok tt
  <-> no_fault_for (store_trips rows) (server w)
     /\ Forall page_ok (paginate page_size rows).
Proof.
  intros Hc. unfold store_block, try_finally.
  destruct ((ensure_table_exists conn;; upsert_stock_data conn rows) w)
    as [r1 w1] eqn:Hbody.
  destruct (store_body_relation _ _ _ _ _ Hc Hbody) as [[c1 Hc1] _].
  rewrite (conn_close_run _ _ _ Hc1). simpl.
  revert Hbody. unfold mbind, M_bind. rewrite (ensure_table_exists_run _ _ Hc).
  pose proof (server_execute_create_idle (server w)) as Hcreate.
  pose proof (server_execute_faults CreateTableIfNotExists (server w)
                (mk_connection Open Idle) eq_refl) as Hfaults.
  destruct (server_execute CreateTableIfNotExists (server w) _)
    as [[[e|] db1] c0] eqn:Hex; simpl in *.
  { intros [= <- <-]. split; [done|]. intros [Hn _]. exfalso.
    destruct rows; unfold store_trips in Hn; simpl in Hn;
      apply no_fault_for_S in Hn as [Hn _]; by apply Hcreate in Hn. }
  pose proof (proj1 Hcreate eq_refl) as Hfirst.
  apply server_execute_create_ok in Hex as [_ ->].
  destruct rows as [|r0 rows].
  - rewrite upsert_empty. intros [= <- <-]. split; [|done]. intros _.
    split; [|constructor]. unfold store_trips.
    apply no_fault_for_S. split; [done|apply no_fault_for_0].
  - intros Hu.
    match type of Hu with
    | upsert_stock_data _ _ ?w0 = _ =>
        pose proof (upsert_result_run conn (r0 :: rows) w0 _ ltac:(done)
                      ltac:(by eapply conn_update_lookup)) as Hiff
    end.
    rewrite Hu in Hiff. simpl in Hiff. rewrite Hiff.
    rewrite run_try_succeeds by done.
    unfold store_trips.
    change (2 + ?n)%nat with (S (S n)).
    rewrite (no_fault_for_S (S _) (server w)).
    rewrite (no_fault_for_faults _ _ _ Hfaults).
    split.
    + intros (_ & ? & ?). done.
    + intros [[_ ?] ?]. split; [|done].
      split; [done|]. split; [done|]. by eexists.
Qed.

Lemma main_try_result w :
  (main w).1 = Ok tt
  <-> (main_try (run_symbol w) (emit (start_record w) w)).1 = Ok tt.
Proof.
  rewrite main_unfold. by destruct (main_try _ _) as [[[]|e] w1].
Qed.

(** X21. [main] returns exactly when every stage has what it needs: the API
    credential is configured; the API answers the request for the symbol
    of the run with a time series; the loop of the normalizer gets past
    every entry; the three database credentials are configured; nothing
    goes wrong at the round trips to the server (the connection, the
    [CREATE TABLE], and with rows to store one per page of 100 rows and
    the commit); and the server accepts every page of the rows: distinct
    keys within the page, values in the range of their columns. *)
Theorem main_succeeds_exactly_when (w : world) :
  (main w).1 = Ok tt
  <-> exists key items,
        environ w !! "ALPHAVANTAGE_API_KEY" = Some key /\ key <> EmptyString
        /\ api_series w (run_symbol w) key items
        /\ Forall (passable (run_symbol w)) items
        /\ first_missing w = None
        /\ no_fault_for (round_trips (omap (kept_row (run_symbol w)) items))
                        (server w)
        /\ Forall page_ok
                  (paginate page_size (omap (kept_row (run_symbol w)) items)).
Proof.
  rewrite main_try_result.
  set (sym := run_symbol w). set (w0 := emit (start_record w) w).
  pose proof (main_try_stages sym w0 _ _ (surjective_pairing _)) as Hst.
  split.
  - intros Hok. rewrite Hok in Hst.
    destruct (fetch_stock_data sym w0) as [[series|e] w1] eqn:Hf;
      [|by destruct Hst].
    apply fetch_ok_inv in Hf as (key & Hkey & Hne & Hapi & ->).
    destruct (parse_time_series sym series _) as [[rows|e] w2] eqn:Hp;
      [|by destruct Hst].
    pose proof Hp as Hp'.
    apply parse_ok_inv in Hp' as (items & -> & -> & ->).
    assert (Hpass : Forall (passable sym) items).
    { eapply for_each_parse_returns. rewrite parse_time_series_for_each in Hp.
      by eexists _, _. }
    revert Hst. rewrite get_db_connection_run.
    change (first_missing (emit_all _ _)) with (first_missing w).
    destruct (first_missing w) as [name|] eqn:Hm; [by intros []|].
    unfold connect_result. simpl server.
    destruct (pop_fault (server w)) as [f db] eqn:Hpop.
    destruct f; simpl fst; simpl snd; cbv beta iota; try by intros [].
    match goal with
    | |- context [store_block ?c ?rs ?w3] =>
        pose proof (store_block_succeeds c rs w3
                      ltac:(simpl; by apply list_lookup_middle)) as Hiff;
        destruct (store_block c rs w3) as [[[]|e] w4]
    end; [|by intros []].
    intros _. simpl in Hiff. destruct (proj1 Hiff eq_refl) as [Hn Hpages].
    exists key, items. repeat split; try done.
    unfold round_trips. apply no_fault_for_S. rewrite Hpop. done.
  - intros (key & items & Hkey & Hne & Hapi & Hpass & Hm & Hn & Hpages).
    revert Hst.
    rewrite (fetch_ok sym key w0 items Hkey Hne Hapi).
    rewrite (parse_returns _ _ _ Hpass).
    rewrite get_db_connection_run.
    change (first_missing (emit_all _ _)) with (first_missing w). rewrite Hm.
    unfold connect_result. simpl server.
    unfold round_trips in Hn. apply no_fault_for_S in Hn as [Hfirst Hn].
    destruct (pop_fault (server w)) as [f db] eqn:Hpop.
    simpl in Hfirst, Hn. subst f. simpl fst; simpl snd; cbv beta iota.
    match goal with
    | |- context [store_block ?c ?rs ?w3] =>
        pose proof (store_block_succeeds c rs w3
                      ltac:(simpl; by apply list_lookup_middle)) as Hiff;
        destruct (store_block c rs w3) as [[[]|e] w4]
    end.
    + by intros [-> _].
    + simpl in Hiff. by pose proof (proj2 Hiff (conj Hn Hpages)).
Qed.

(** ** The requests of a run *)

Lemma offline_ret {A} (a : A) : offline (mret a).
Proof. intros w r w' [= <- <-]. exists []. by rewrite app_nil_r. Qed.

Lemma offline_raise {A} e : offline (@raise A e).
Proof. intros w r w' [= <- <-]. exists []. by rewrite app_nil_r. Qed.

Lemma offline_lift {A} (x : result A) : offline (lift x).
Proof. intros w r w' [= <- <-]. exists []. by rewrite app_nil_r. Qed.

Lemma offline_logging lvl template args : offline (logging lvl template args).
Proof. intros w r w' [= <- <-]. by exists [Log lvl template args]. Qed.

Lemma offline_bind {A B} (m : M A) (f : A -> M B) :
  offline m -> (forall a, offline (f a)) -> offline (m ≫= f).
Proof.
  intros Hm Hf w r w'. unfold mbind, M_bind.
  destruct (m w) as [[a|e] w1] eqn:H1.
  - intros H2. destruct (Hm _ _ _ H1) as (evs1 & Ht1 & Hn1).
    destruct (Hf _ _ _ _ H2) as (evs2 & Ht2 & Hn2). exists (evs1 ++ evs2).
    by rewrite Ht2, Ht1, app_assoc, existsb_app, Hn1, Hn2.
  - intros [= <- <-]. by eapply Hm.
Qed.

Lemma offline_try_except {A} (m : M A) (h : exn -> M A) :
  offline m -> (forall e, offline (h e)) -> offline (try_except m h).
Proof.
  intros Hm Hh w r w'. unfold try_except.
  destruct (m w) as [[a|e] w1] eqn:H1.
  - intros [= <- <-]. by eapply Hm.
  - intros H2. destruct (Hm _ _ _ H1) as (evs1 & Ht1 & Hn1).
    destruct (Hh _ _ _ _ H2) as (evs2 & Ht2 & Hn2). exists (evs1 ++ evs2).
    by rewrite Ht2, Ht1, app_assoc, existsb_app, Hn1, Hn2.
Qed.

Lemma offline_try_finally {A} (m : M A) (fin : M unit) :
  offline m -> offline fin -> offline (try_finally m fin).
Proof.
  intros Hm Hfin w r w'. unfold try_finally.
  destruct (m w) as [r1 w1] eqn:H1. destruct (Hm _ _ _ H1) as (evs1 & Ht1 & Hn1).
  destruct (fin w1) as [r2 w2] eqn:H2.
  destruct (Hfin _ _ _ H2) as (evs2 & Ht2 & Hn2).
  destruct r2; intros [= <- <-]; exists (evs1 ++ evs2);
    by rewrite Ht2, Ht1, app_assoc, existsb_app, Hn1, Hn2.
Qed.

Lemma offline_for_each {A B} (body : B -> A -> M B) xs :
  (forall acc x, offline (body acc x)) -> forall acc, offline (for_each body xs acc).
Proof.
  intros Hb. induction xs as [|x xs IH]; intros acc; simpl.
  - apply offline_ret.
  - apply offline_bind; [apply Hb|apply IH].
Qed.

Lemma offline_handling {A} cause (m : M A) : offline m -> offline (handling cause m).
Proof.
  intros Hm w r w'. unfold handling.
  destruct (m w) as [r1 w1] eqn:H1. destruct (Hm _ _ _ H1) as (evs & Ht & Hn).
  intros H. assert (w' = w1) as ->; [|by exists evs].
  repeat case_match; by simplify_eq.
Qed.

Lemma offline_quiet_log {A} (m : M A) :
  (forall w r w', m w = (r, w') -> exists evs, w' = emit_all evs w
                                               /\ forallb is_log evs = true) ->
  offline m.
Proof.
  intros Hm w r w' H. destruct (Hm _ _ _ H) as (evs & -> & Hl). exists evs.
  split; [done|]. clear -Hl. induction evs as [|[] evs IH]; simpl in *; try done.
  by apply IH.
Qed.

Lemma offline_get_env_var name default required :
  offline (get_env_var name default required).
Proof.
  intros w r w'. unfold get_env_var, mbind, M_bind, os_getenv. simpl.
  destruct (required && _); intros [= <- <-]; exists []; by rewrite app_nil_r.
Qed.

Lemma offline_conn_call conn ev step :
  is_http_get ev = false -> offline (conn_call conn ev step).
Proof.
  intros Hev w r w'. unfold conn_call.
  destruct (connections w !! conn) as [c|].
  - destruct (step (server w) c) as [[[e|] db] c']; intros [= <- <-];
      exists [ev]; simpl; by rewrite Hev.
  - intros [= <- <-]. exists []. by rewrite app_nil_r.
Qed.

Lemma offline_conn_cursor conn : offline (conn_cursor conn).
Proof.
  intros w r w'. unfold conn_cursor.
  destruct (connections w !! conn) as [[[] tx]|]; intros [= <- <-]; exists [];
    by rewrite app_nil_r.
Qed.

Lemma offline_psycopg2_connect dbname user password host port :
  offline (psycopg2_connect dbname user password host port).
Proof.
  intros w r w'. unfold psycopg2_connect.
  destruct (pop_fault (server w)) as [[] db]; intros [= <- <-]; simpl.
  - by eexists [_].
  - exists []. by rewrite app_nil_r.
  - exists []. by rewrite app_nil_r.
Qed.

Create HintDb offline.
#[local] Hint Resolve offline_ret offline_raise offline_lift offline_logging
  offline_get_env_var offline_conn_cursor offline_psycopg2_connect
  offline_bind offline_try_except offline_try_finally offline_for_each
  offline_handling : offline.

Ltac offline_cases :=
  repeat first
    [ progress (intros)
    | match goal with
      | |- offline (if ?b then _ else _) => destruct b
      | |- offline (match ?x with _ => _ end) => destruct x
      | |- offline (conn_call _ _ _) => by apply offline_conn_call
      | |- offline (handling _ _) => apply offline_handling
      | |- offline (_ ≫= _) => apply offline_bind
      | |- offline (try_except _ _) => apply offline_try_except
      | |- offline (try_finally _ _) => apply offline_try_finally
      | |- offline (for_each _ _ _) => apply offline_for_each
      end
    | solve [eauto with offline] ].

Lemma offline_parse_time_series symbol time_series :
  offline (parse_time_series symbol time_series).
Proof. unfold parse_time_series, parse_step. offline_cases. Qed.

Lemma offline_get_db_connection : offline get_db_connection.
Proof. unfold get_db_connection. offline_cases. Qed.

Lemma offline_store_block conn rows : offline (store_block conn rows).
Proof.
  unfold store_block, ensure_table_exists, upsert_stock_data, upsert_try,
    upsert_except, execute_values, cur_execute, conn_commit, conn_rollback,
    conn_close.
  offline_cases.
Qed.

Lemma main_try_unfold sym : main_try sym = fetch_stock_data sym ≫= store_series sym.
Proof. reflexivity. Qed.

Lemma offline_store_series sym series : offline (store_series sym series).
Proof.
  pose proof offline_parse_time_series. pose proof offline_get_db_connection.
  pose proof offline_store_block. unfold store_series. offline_cases.
Qed.

Lemma logs_offline evs :
  forallb is_log evs = true -> existsb is_http_get evs = false.
Proof. induction evs as [|[] evs IH]; simpl; done. Qed.

(** X22. A run of [main] sends one request to the API when the API credential
    is configured, and none when it is not, however the run ends.  The
    request is for the symbol of the run, with the credential, and it is
    the first thing the run does after the record of its start: the
    warnings of the normalizer and every contact with the database come
    after it.  There is no second request and no retry. *)
Theorem main_sends_one_request (w : world) (r : result unit) (w' : world) :
  main w = (r, w') ->
  exists rest,
    new_events w w'
    = start_record w
        :: request_events (run_symbol w) (environ w !! "ALPHAVANTAGE_API_KEY")
        ++ rest
    /\ existsb is_http_get rest = false.
Proof.
  rewrite main_unfold, main_try_unfold.
  set (sym := run_symbol w). set (w0 := emit (start_record w) w).
  unfold request_events, mbind, M_bind.
  destruct (falsy (environ w !! "ALPHAVANTAGE_API_KEY")) eqn:Hfalsy.
  { rewrite (fetch_requires_api_key sym w0 Hfalsy). intros [= <- <-].
    eexists [_].
    split; [apply new_events_trace; simpl; by rewrite <- app_assoc|done]. }
  destruct (environ w !! "ALPHAVANTAGE_API_KEY") as [key|] eqn:Hkey; [|done].
  simpl in Hfalsy. apply String.eqb_neq in Hfalsy.
  destruct (fetch_stock_data sym w0) as [r1 w1] eqn:Hf.
  destruct (fetch_requested sym key w0 _ _ Hkey Hfalsy Hf) as (logs & -> & Hlogs).
  apply logs_offline in Hlogs.
  destruct r1 as [series|e].
  - destruct (store_series sym series _) as [r2 w2] eqn:Hs.
    destruct (offline_store_series _ _ _ _ _ Hs) as (evs & Ht & Hn).
    simpl in Ht. destruct r2 as [[]|e]; intros [= <- <-].
    + exists (logs ++ evs). split; [|by rewrite existsb_app, Hlogs, Hn].
      apply new_events_trace. rewrite Ht, <- !app_assoc. reflexivity.
    + exists (logs ++ evs ++ [Log ERROR "Pipeline failed: %s" [ArgExn e]]).
      split; [|by rewrite !existsb_app, Hlogs, Hn].
      apply new_events_trace. simpl. rewrite Ht, <- !app_assoc. reflexivity.
  - intros [= <- <-].
    exists (logs ++ [Log ERROR "Pipeline failed: %s" [ArgExn e]]).
    split; [|by rewrite !existsb_app, Hlogs].
    apply new_events_trace. simpl. rewrite <- !app_assoc. reflexivity.
Qed.

(** [main_sends_one_request] at a run whose upsert the server refuses. *)
Lemma main_sends_one_request_witness :
  exists rest,
    new_events failing_store_world (main failing_store_world).2
    = start_record failing_store_world
        :: [Log INFO "Requesting data from Alpha Vantage for symbol=%s"
                [ArgStr "MSFT"];
            HttpGet (api_request "MSFT" (Some "demo"))]
        ++ rest
    /\ existsb is_http_get rest = false.
Proof.
  apply (main_sends_one_request failing_store_world (main failing_store_world).1).
  apply surjective_pairing.
Defined.

(** ** The exceptions of a run *)

















(** ** The task of the DAG *)

(** X24. [run_stock_pipeline], the callable of the task, ends as [main] ends.
    When [main] returns it returns, and adds nothing.  When [main] raises
    it raises the same exception, so that the task fails, after one more
    log record: the log of the run then closes with the record of [main]
    and the record of the task, and nothing has been committed. *)
Theorem run_stock_pipeline_outcome (w : world) (r : result unit) (w' : world) :
  run_stock_pipeline w = (r, w') ->
  (main w).1 = r
  /\ match r with
     | Ok _ => w' = (main w).2
     | Raise e =>
         w' = emit (Log ERROR "Stock pipeline failed inside DAG: %s" [ArgExn e])
                   (main w).2
         /\ relation (server w') = relation (server w)
         /\ exists evs,
             new_events w w'
             = start_record w
                 :: evs ++ [Log ERROR "Pipeline failed: %s" [ArgExn e];
                            Log ERROR "Stock pipeline failed inside DAG: %s"
                                [ArgExn e]]
     end.
Proof.
  unfold run_stock_pipeline, try_except.
  destruct (main w) as [[[]|e] w1] eqn:Hm.
  - by intros [= <- <-].
  - unfold mbind, M_bind, logging, effect, raise. intros [= <- <-].
    split; [done|]. split; [done|]. split.
    + by apply main_relation in Hm.
    + apply main_trace in Hm as [evs Hm]. exists evs.
      apply new_events_trace. simpl. rewrite Hm. simpl.
      rewrite <- app_assoc. simpl. by rewrite <- app_assoc.
Qed.

(** [run_stock_pipeline_outcome] at a run whose upsert the server
    refuses. *)
Lemma run_stock_pipeline_outcome_witness :
  (main failing_store_world).1 = Raise (Psycopg2Error DatabaseError None)
  /\ relation (server (run_stock_pipeline failing_store_world).2) = None.
Proof.
  destruct (run_stock_pipeline_outcome failing_store_world
              (Raise (Psycopg2Error DatabaseError None))
              (run_stock_pipeline failing_store_world).2)
    as (H1 & _ & H2 & _).
  - vm_compute. reflexivity.
  - split; [exact H1|exact H2].
Defined.
